(** * ZettlrVirtualDirectory: the overlay-folder manager of Zettlr

    A shallow embedding of [source/main/zettlr-virtual-directory.js] and
    the properties its specification states about it.

    - [JsString]: the string builtins the class calls ([indexOf],
      [replace], [toLowerCase]).
    - [Json]: [JSON.stringify] and [JSON.parse] on the sidecar schema,
      an array of [{name, files}] objects.
    - [ZettlrVirtualDirectory]: the class itself, as state-passing code
      in a monad of state plus exceptions. *)

From Stdlib Require Import ZArith NArith Ascii String List Lia Bool.
From stdpp Require Import base option list strings gmap.

Local Open Scope Z_scope.

(** ** Strings *)

(** A JavaScript string is modelled as a [string] of 8-bit code units.
    The builtins below follow ECMAScript on such strings. *)
Module JsString.

Definition dquote : ascii := "034"%char.
Definition backslash : ascii := "092"%char.

(** Whether [s] begins with [pat]. *)
Fixpoint starts_with (pat s : string) : bool :=
  match pat, s with
  | EmptyString, _ => true
  | String a pat', String b s' => (N_of_ascii a =? N_of_ascii b)%N && starts_with pat' s'
  | String _ _, EmptyString => false
  end.

(** [String.prototype.indexOf(pat)], from position 0: the least index
    at which [pat] occurs in [s], or -1. *)
Fixpoint indexOf_from (pat s : string) (i : Z) : Z :=
  if starts_with pat s then i
  else match s with
       | EmptyString => -1
       | String _ s' => indexOf_from pat s' (i + 1)
       end.

Definition indexOf (s pat : string) : Z := indexOf_from pat s 0.

Fixpoint substr_from (n : nat) (s : string) : string :=
  match n, s with
  | O, _ => s
  | S _, EmptyString => EmptyString
  | S n', String _ s' => substr_from n' s'
  end.

(** [String.prototype.replace(pat, rep)] with a string pattern: only
    the first occurrence is replaced.  [rep] has no [$] pattern at the
    one call site (it is the empty string). *)
Fixpoint replace (s pat rep : string) : string :=
  if starts_with pat s then rep +:+ substr_from (String.length pat) s
  else match s with
       | EmptyString => EmptyString
       | String c s' => String c (replace s' pat rep)
       end.

(** The lower-case form of a code unit below U+0100: the letters A to
    Z, and the capital letters of U+00C0 to U+00DE (U+00D7, the
    multiplication sign, is not one), lie 32 below their lower case. *)
Definition lower_ascii (c : ascii) : ascii :=
  let n := N_of_ascii c in
  if ((65 <=? n) && (n <=? 90))%N then ascii_of_N (n + 32)
  else if ((192 <=? n) && (n <=? 222) && negb (n =? 215))%N then ascii_of_N (n + 32)
  else c.

(** [String.prototype.toLowerCase()]. *)
Fixpoint toLowerCase (s : string) : string :=
  match s with
  | EmptyString => EmptyString
  | String c s' => String (lower_ascii c) (toLowerCase s')
  end.

End JsString.

(** ** The persisted records and their JSON text *)

(** One entry of the sidecar file: [{ 'name': ..., 'files': [...] }]. *)
Record VirtualDirectoryRecord : Type := mkRecord {
  v_name : string;
  v_files : list string
}.

Module Json.
Import JsString.

Definition hex_digit (n : N) : ascii :=
  if (n <? 10)%N then ascii_of_N (48 + n) else ascii_of_N (87 + n).

(** QuoteJSONString, one code unit. *)
Definition escape_char (c : ascii) : string :=
  let n := N_of_ascii c in
  if (n =? 34)%N then String backslash (String dquote EmptyString)
  else if (n =? 92)%N then String backslash (String backslash EmptyString)
  else if (n =? 8)%N then String backslash "b"
  else if (n =? 12)%N then String backslash "f"
  else if (n =? 10)%N then String backslash "n"
  else if (n =? 13)%N then String backslash "r"
  else if (n =? 9)%N then String backslash "t"
  else if (n <? 32)%N then
    String backslash
      (String "u" (String "0" (String "0"
         (String (hex_digit (n / 16)) (String (hex_digit (n mod 16)) EmptyString)))))
  else String c EmptyString.

Fixpoint escape_string (s : string) : string :=
  match s with
  | EmptyString => EmptyString
  | String c s' => escape_char c +:+ escape_string s'
  end.

Definition quote (s : string) : string :=
  String dquote (escape_string s +:+ String dquote EmptyString).

(** Elements separated by commas, no white space, as [JSON.stringify]
    without its [space] argument prints them. *)
Fixpoint join_with_commas (l : list string) : string :=
  match l with
  | [] => EmptyString
  | [x] => x
  | x :: l' => x +:+ "," +:+ join_with_commas l'
  end.

Definition stringify_array (elems : list string) : string :=
  "[" +:+ join_with_commas elems +:+ "]".

Definition name_key : string := "{" +:+ quote "name" +:+ ":".
Definition files_key : string := "," +:+ quote "files" +:+ ":".

Definition stringify_record (r : VirtualDirectoryRecord) : string :=
  name_key +:+ quote (v_name r) +:+ files_key
    +:+ stringify_array (quote <$> v_files r) +:+ "}".

(** [JSON.stringify(this._virtualDirectories)]. *)
Definition stringify (l : list VirtualDirectoryRecord) : string :=
  stringify_array (stringify_record <$> l).

(** *** Reading the text back *)

Definition hex_value (c : ascii) : option N :=
  let n := N_of_ascii c in
  if ((48 <=? n) && (n <=? 57))%N then Some (n - 48)%N
  else if ((97 <=? n) && (n <=? 102))%N then Some (n - 87)%N
  else if ((65 <=? n) && (n <=? 70))%N then Some (n - 55)%N
  else None.

Definition unescape (c : ascii) : option ascii :=
  let n := N_of_ascii c in
  if (n =? 34)%N then Some dquote
  else if (n =? 92)%N then Some backslash
  else if (n =? 47)%N then Some "/"%char
  else if (n =? 98)%N then Some "008"%char
  else if (n =? 102)%N then Some "012"%char
  else if (n =? 110)%N then Some "010"%char
  else if (n =? 114)%N then Some "013"%char
  else if (n =? 116)%N then Some "009"%char
  else None.

Definition push_front (c : ascii) (r : option (string * string))
  : option (string * string) :=
  match r with
  | Some (s, rest) => Some (String c s, rest)
  | None => None
  end.

(** A JSON string literal after its opening quote: the decoded string
    and the text after the closing quote.  A [\u] escape above U+00FF
    has no 8-bit code unit and is rejected. *)
Fixpoint parse_string_body (s : string) : option (string * string) :=
  match s with
  | EmptyString => None
  | String c s1 =>
      let n := N_of_ascii c in
      if (n =? 34)%N then Some (EmptyString, s1)
      else if (n =? 92)%N then
        match s1 with
        | EmptyString => None
        | String e s2 =>
            if (N_of_ascii e =? 117)%N then
              match s2 with
              | String h1 (String h2 (String h3 (String h4 s3))) =>
                  match hex_value h1, hex_value h2, hex_value h3, hex_value h4 with
                  | Some a, Some b, Some c', Some d =>
                      let code := (((a * 16 + b) * 16 + c') * 16 + d)%N in
                      if (code <? 256)%N
                      then push_front (ascii_of_N code) (parse_string_body s3)
                      else None
                  | _, _, _, _ => None
                  end
              | _ => None
              end
            else
              match unescape e with
              | Some ch => push_front ch (parse_string_body s2)
              | None => None
              end
        end
      else if (n <? 32)%N then None
      else push_front c (parse_string_body s1)
  end.

Definition parse_string (s : string) : option (string * string) :=
  match s with
  | String c s1 => if (N_of_ascii c =? 34)%N then parse_string_body s1 else None
  | EmptyString => None
  end.

(** [expect lit s]: [s] without its prefix [lit], when it has it. *)
Fixpoint expect (lit s : string) : option string :=
  match lit, s with
  | EmptyString, _ => Some s
  | String a lit', String b s' =>
      if (N_of_ascii a =? N_of_ascii b)%N then expect lit' s' else None
  | String _ _, EmptyString => None
  end.

Section Elements.
Context {A : Type} (parse_elem : string -> option (A * string)).

(** One or more elements up to the closing bracket. *)
Fixpoint parse_elems (fuel : nat) (s : string) : option (list A * string) :=
  match fuel with
  | O => None
  | S fuel' =>
      match parse_elem s with
      | Some (x, String d s2) =>
          if (N_of_ascii d =? 44)%N then
            match parse_elems fuel' s2 with
            | Some (l, rest) => Some (x :: l, rest)
            | None => None
            end
          else if (N_of_ascii d =? 93)%N then Some ([x], s2)
          else None
      | _ => None
      end
  end.

Definition parse_array (s : string) : option (list A * string) :=
  match s with
  | String c s1 =>
      if (N_of_ascii c =? 91)%N then
        match s1 with
        | String d s2 =>
            if (N_of_ascii d =? 93)%N then Some ([], s2)
            else parse_elems (String.length s1) s1
        | EmptyString => None
        end
      else None
  | EmptyString => None
  end.
End Elements.

Definition parse_record (s : string) : option (VirtualDirectoryRecord * string) :=
  match expect name_key s with
  | Some s1 =>
      match parse_string s1 with
      | Some (n, s2) =>
          match expect files_key s2 with
          | Some s3 =>
              match parse_array parse_string s3 with
              | Some (fs, String c s4) =>
                  if (N_of_ascii c =? 125)%N then Some (mkRecord n fs, s4) else None
              | _ => None
              end
          | None => None
          end
      | None => None
      end
  | None => None
  end.

(** [JSON.parse] on the sidecar schema: an array of [{name, files}]
    objects in the compact form [stringify] prints.  [None] stands
    both for a text [JSON.parse] rejects and for a text outside this
    schema, which the record type cannot hold. *)
Definition parse (s : string) : option (list VirtualDirectoryRecord) :=
  match parse_array parse_record s with
  | Some (l, EmptyString) => Some l
  | _ => None
  end.

End Json.

(** ** Values, errors and completions *)

(** The arguments a caller may hand to [add] and [remove] as a name. *)
Inductive js_value : Type :=
| VUndefined
| VNull
| VBoolean (b : bool)
| VNumber (n : Z)
| VString (s : string).

Definition typeof (v : js_value) : string :=
  match v with
  | VUndefined => "undefined"
  | VNull => "object"
  | VBoolean _ => "boolean"
  | VNumber _ => "number"
  | VString _ => "string"
  end.

(** What the code can throw.  [ENOENT] is the error of [fs] on a missing
    path; [SidecarOutsideModel] is [JSON.parse] on a text that [Json.parse]
    does not read. *)
Inductive js_error : Type :=
| TypeError
| ReferenceError
| ENOENT
| SidecarOutsideModel.

Inductive completion (A : Type) : Type :=
| Normal (a : A)
| Throw (e : js_error).
Arguments Normal {A} a.
Arguments Throw {A} e.

(** ** The class *)

Module ZettlrVirtualDirectory.
Import JsString.

(** The callback of both [find] calls on [_virtualDirectories]. *)
Definition same_name (name : string) (elem : VirtualDirectoryRecord) : Prop :=
  toLowerCase (v_name elem) = toLowerCase name.

#[export] Instance same_name_dec name elem : Decision (same_name name elem).
Proof. unfold same_name. apply _. Defined.

Section Manager.

(** The file objects of the application, [path.join] of Node and
    [hash] of [../common/zettlr-helpers.js] are used by the class and
    defined elsewhere. *)
Context {File : Type}.
Variable path_join : string -> string -> string.
Variable hash : string -> Z.

(** The parent directory, as far as the class calls it:
    [getPath()], [isScope(f)], [findFile({'path': p})]. *)
Record Directory : Type := mkDirectory {
  getPath : string;
  isScope : string -> bool;
  findFile : string -> option File
}.

(** [{ 'name', 'children', 'hash', 'type' }], an entry of
    [_realDirectories]. *)
Record RealDirectory : Type := mkReal {
  r_name : string;
  r_children : list File;
  r_hash : Z;
  r_type : string
}.

(** The fields of an instance.  [_root] is read by [_isAbsolute],
    [_makeRelative] and [_makeAbsolute] and assigned by no statement of
    the class: the constructor leaves it [undefined], here [None]. *)
Record t : Type := mkManager {
  _directory : Directory;
  _file : string;
  _root : option string;
  _virtualDirectories : list VirtualDirectoryRecord;
  _realDirectories : list RealDirectory
}.

(** An instance together with the files on disk, by path. *)
Record world : Type := mkWorld {
  this : t;
  disk : gmap string string
}.

(** *** State and exceptions *)

Definition M (A : Type) : Type := world -> completion A * world.

Definition ret {A} (a : A) : M A := fun w => (Normal a, w).
Definition throw {A} (e : js_error) : M A := fun w => (Throw e, w).
Definition bind {A B} (m : M A) (k : A -> M B) : M B :=
  fun w =>
    match m w with
    | (Normal a, w') => k a w'
    | (Throw e, w') => (Throw e, w')
    end.
Definition lift {A} (c : completion A) : M A := fun w => (c, w).

Notation "x <- m ;; k" := (bind m (fun x => k))
  (at level 100, m at next level, right associativity).
Notation "m ;; k" := (bind m (fun _ => k))
  (at level 100, right associativity).

(** [try { m } catch (e) { handler }]. *)
Definition try_catch {A} (m : M A) (handler : js_error -> M A) : M A :=
  fun w =>
    match m w with
    | (Normal a, w') => (Normal a, w')
    | (Throw e, w') => handler e w'
    end.

(** [for (let x of l) { body }], in the monad. *)
Fixpoint for_of {A} (l : list A) (body : A -> M unit) : M unit :=
  match l with
  | [] => ret tt
  | x :: l' => body x ;; for_of l' body
  end.

(** The same loop over a local accumulator that a throw discards. *)
Fixpoint for_of_local {A S} (l : list A) (body : S -> A -> completion S) (s : S)
  : completion S :=
  match l with
  | [] => Normal s
  | x :: l' =>
      match body s x with
      | Normal s' => for_of_local l' body s'
      | Throw e => Throw e
      end
  end.

Definition get_this : M t := fun w => (Normal (this w), w).

Definition with_virtualDirectories (l : list VirtualDirectoryRecord) (self : t) : t :=
  mkManager (_directory self) (_file self) (_root self) l (_realDirectories self).
Definition with_realDirectories (l : list RealDirectory) (self : t) : t :=
  mkManager (_directory self) (_file self) (_root self) (_virtualDirectories self) l.

Definition set_virtualDirectories (l : list VirtualDirectoryRecord) : M unit :=
  fun w => (Normal tt, mkWorld (with_virtualDirectories l (this w)) (disk w)).
Definition set_realDirectories (l : list RealDirectory) : M unit :=
  fun w => (Normal tt, mkWorld (with_realDirectories l (this w)) (disk w)).

(** *** [fs] *)

Definition lstatSync (p : string) : M unit :=
  fun w => match disk w !! p with
           | Some _ => (Normal tt, w)
           | None => (Throw ENOENT, w)
           end.

Definition readFileSync (p : string) : M string :=
  fun w => match disk w !! p with
           | Some txt => (Normal txt, w)
           | None => (Throw ENOENT, w)
           end.

Definition writeFileSync (p txt : string) : M unit :=
  fun w => (Normal tt, mkWorld (this w) (<[p := txt]> (disk w))).

Definition unlinkSync (p : string) : M unit :=
  fun w => match disk w !! p with
           | Some _ => (Normal tt, mkWorld (this w) (delete p (disk w)))
           | None => (Throw ENOENT, w)
           end.

Definition JSON_parse (txt : string) : M (list VirtualDirectoryRecord) :=
  match Json.parse txt with
  | Some l => ret l
  | None => throw SidecarOutsideModel
  end.

(** *** Paths *)

(** [ToString(this._root)], as [indexOf] and [replace] coerce their
    argument. *)
Definition root_ToString (self : t) : string :=
  match _root self with
  | Some r => r
  | None => "undefined"
  end.

Definition _isAbsolute (self : t) (p : string) : bool :=
  indexOf p (root_ToString self) =? 0.

Definition _makeRelative (self : t) (p : string) : string :=
  if _isAbsolute self p then replace p (root_ToString self) "" else p.

(** [path.join] throws a [TypeError] on an argument that is not a
    string. *)
Definition _makeAbsolute (self : t) (p : string) : completion string :=
  if negb (_isAbsolute self p) then
    match _root self with
    | Some r => Normal (path_join r p)
    | None => Throw TypeError
    end
  else Normal p.

(** *** [_refresh] *)

(** Reading a [let] binding inside its own initialiser: the binding is
    in scope and not yet initialised. *)
Definition read_uninitialised {A} : completion A := Throw ReferenceError.

(** The body of the inner loop,
    [let file = this._directory.findFile({'path': this._makeAbsolute(file)});
     if(file) { real.children.push(file); }].
    The block declares its own [file], which hides the loop variable
    [file_of_loop] in the whole block, the initialiser included. *)
Definition refresh_file (self : t) (children : list File) (file_of_loop : string)
  : completion (list File) :=
  match read_uninitialised with
  | Throw e => Throw e
  | Normal file =>
      match _makeAbsolute self file with
      | Throw e => Throw e
      | Normal p =>
          match findFile (_directory self) p with
          | Some f => Normal (children ++ [f])
          | None => Normal children
          end
      end
  end.

Definition refresh_dir (dir : VirtualDirectoryRecord) : M unit :=
  self <- get_this ;;
  children <- lift (for_of_local (v_files dir) (refresh_file self) []) ;;
  self' <- get_this ;;
  set_realDirectories
    (_realDirectories self' ++ [mkReal (v_name dir) children (hash (v_name dir)) "virtualdir"]).

Definition _refresh : M unit :=
  set_realDirectories [] ;;
  self <- get_this ;;
  for_of (_virtualDirectories self) refresh_dir.

(** *** [_write] and [_read] *)

Definition _write : M unit :=
  self <- get_this ;;
  (if (length (_virtualDirectories self) =? 0)%nat
   then unlinkSync (_file self)
   else writeFileSync (_file self) (Json.stringify (_virtualDirectories self))) ;;
  _refresh.

Definition _read : M bool :=
  self <- get_this ;;
  found <- try_catch (lstatSync (_file self) ;; ret true) (fun _ => ret false) ;;
  if negb found then ret false
  else
    txt <- readFileSync (_file self) ;;
    l <- JSON_parse txt ;;
    set_virtualDirectories l ;;
    _refresh ;;
    ret true.

(** [new ZettlrVirtualDirectory(dir)] against the files [d]. *)
Definition constructor (dir : Directory) (d : gmap string string)
  : completion unit * world :=
  (_read ;; ret tt)
    (mkWorld (mkManager dir (path_join (getPath dir) ".ztr-virtual-dir") None [] []) d).

(** *** [add] *)

(** [dir.files.push(p)] for the record at index [i]: [dir] is the
    object stored there, so the array sees the push. *)
Definition push_file (i : nat) (p : string) : M unit :=
  self <- get_this ;;
  set_virtualDirectories
    (alter (fun r => mkRecord (v_name r) (v_files r ++ [p])) i (_virtualDirectories self)).

Definition add (name : js_value) (files : list string) : M bool :=
  match name with
  | VString name =>
      self <- get_this ;;
      i <- match list_find (same_name name) (_virtualDirectories self) with
           | Some (i, _) => ret i
           | None =>
               set_virtualDirectories (_virtualDirectories self ++ [mkRecord name []]) ;;
               ret (length (_virtualDirectories self))
           end ;;
      for_of files (fun f =>
        if isScope (_directory self) f
        then push_file i (_makeRelative self f)
        else ret tt) ;;
      _write ;;
      ret true
  | _ => ret false
  end.

(** *** [remove] *)

(** [this._virtualDirectories.find(...)] with the argument [name] of
    [remove]: the callback calls [name.toLowerCase()] on the first
    element, a [TypeError] unless [name] is a string. *)
Definition find_by_name (name : js_value) (l : list VirtualDirectoryRecord)
  : M (option nat) :=
  match name with
  | VString name => ret (fst <$> list_find (same_name name) l)
  | _ => match l with
         | [] => ret None
         | _ :: _ => throw TypeError
         end
  end.

(** [dir.find(...)] on the record object [dir]: a plain object has no
    [find], and calling [undefined] is a [TypeError]. *)
Definition record_find (h : Z) : M unit := throw TypeError.

Definition remove (name : js_value) (hashes : list Z) : M unit :=
  self <- get_this ;;
  dir <- find_by_name name (_virtualDirectories self) ;;
  match dir with
  | None => ret tt
  | Some i =>
      (if (length hashes =? 0)%nat
       then set_virtualDirectories (delete i (_virtualDirectories self))
       else for_of hashes record_find) ;;
      _write
  end.

(** *** [find] *)

(** The argument of [find]: the own properties it may carry. *)
Record FindArgument : Type := mkFindArgument {
  hash_property : option Z;
  path_property : option string;
  name_property : option string
}.

Fixpoint find_loop (h : Z) (l : list RealDirectory) : option RealDirectory :=
  match l with
  | [] => None
  | dir :: l' => if r_hash dir =? h then Some dir else find_loop h l'
  end.

Definition find (self : t) (obj : FindArgument) : option RealDirectory :=
  match hash_property obj with
  | Some h => find_loop h (_realDirectories self)
  | None => None
  end.

(** *** Vocabulary of the properties *)

(** A record without files; [_refresh] gets past such a record. *)
Definition fileless (r : VirtualDirectoryRecord) : bool :=
  match v_files r with
  | [] => true
  | _ :: _ => false
  end.

(** The entry [_refresh] pushes for a record without files. *)
Definition empty_view (r : VirtualDirectoryRecord) : RealDirectory :=
  mkReal (v_name r) [] (hash (v_name r)) "virtualdir".

(** The records up to the first one that has files. *)
Fixpoint leading_fileless (l : list VirtualDirectoryRecord) : list VirtualDirectoryRecord :=
  match l with
  | [] => []
  | r :: l' => if fileless r then r :: leading_fileless l' else []
  end.

(** What [add] pushes for the references [files]. *)
Definition stored (self : t) (files : list string) : list string :=
  _makeRelative self <$> List.filter (isScope (_directory self)) files.

Definition push_files (extra : list string) (r : VirtualDirectoryRecord)
  : VirtualDirectoryRecord :=
  mkRecord (v_name r) (v_files r ++ extra).

(** The record list after [add(name, ...)] has pushed [extra]. *)
Definition merged (name : string) (extra : list string) (l : list VirtualDirectoryRecord)
  : list VirtualDirectoryRecord :=
  match list_find (same_name name) l with
  | Some (i, _) => alter (push_files extra) i l
  | None => l ++ [mkRecord name extra]
  end.

(** Names differ pairwise, letter case aside. *)
Definition names_unique (l : list VirtualDirectoryRecord) : Prop :=
  NoDup ((fun r => toLowerCase (v_name r)) <$> l).

(** The sidecar file agrees with the record list: absent for the empty
    list, else a text that [JSON.parse] reads as the list. *)
Definition sidecar_consistent (w : world) : Prop :=
  match _virtualDirectories (this w) with
  | [] => disk w !! _file (this w) = None
  | _ :: _ =>
      exists txt, disk w !! _file (this w) = Some txt
                  /\ Json.parse txt = Some (_virtualDirectories (this w))
  end.

(** A call of one of the two mutating methods. *)
Inductive call : Type :=
| Add (name : js_value) (files : list string)
| Remove (name : js_value) (hashes : list Z).

Definition run (c : call) : M unit :=
  match c with
  | Add name files => add name files ;; ret tt
  | Remove name hashes => remove name hashes
  end.

(** Whether the call gets past its guard ([typeof name != 'string'] in
    [add], [!dir] in [remove]) to the update of the record list. *)
Definition passes_guard (c : call) (w : world) : bool :=
  match c with
  | Add (VString _) _ => true
  | Remove (VString name) _ =>
      match list_find (same_name name) (_virtualDirectories (this w)) with
      | Some _ => true
      | None => false
      end
  | _ => false
  end.

(** The states of an instance over [dir]: the one the constructor
    built, and the one any later call of [add] or [remove] left behind,
    whether the call returned or threw.  The disk is changed by the
    instance only. *)
Inductive reachable (dir : Directory) : world -> Prop :=
| reachable_new (d : gmap string string) (w : world) :
    constructor dir d = (Normal tt, w) -> reachable dir w
| reachable_call (c : call) (w : world) :
    reachable dir w -> reachable dir (snd (run c w)).

(** What holds of every state of an instance. *)
Definition instance_invariant (dir : Directory) (w : world) : Prop :=
  (_directory (this w) = dir
   /\ _file (this w) = path_join (getPath dir) ".ztr-virtual-dir"
   /\ _root (this w) = None)
  /\ (_virtualDirectories (this w) <> [] ->
      exists txt, disk w !! _file (this w) = Some txt
                  /\ Json.parse txt = Some (_virtualDirectories (this w)))
  /\ Forall (fun e => r_children e = [] /\ r_hash e = hash (r_name e)
                      /\ r_type e = "virtualdir")
       (_realDirectories (this w)).

End Manager.
End ZettlrVirtualDirectory.


(** ** Sample collaborators

    A concrete directory, [path.join] and [hash], for the examples that
    run the class on inputs. *)
Module Sample.
Import ZettlrVirtualDirectory.

(** [path.join] of two segments that need no normalisation. *)
Definition path_join (a b : string) : string := a +:+ "/" +:+ b.

Definition to_int32 (z : Z) : Z := (z + 2 ^ 31) mod 2 ^ 32 - 2 ^ 31.

(** A rolling string hash on signed 32-bit integers,
    [h = ((h << 5) - h) + c]. *)
Fixpoint hash_from (h : Z) (s : string) : Z :=
  match s with
  | EmptyString => h
  | String c s' => hash_from (to_int32 (Z.shiftl h 5 - h + Z.of_N (N_of_ascii c))) s'
  end.

Definition hash (s : string) : Z := hash_from 0 s.

(** The directory [/notes]: a path is in scope when it lies below it,
    and every such path resolves to a file object, here the path itself. *)
Definition notes : @Directory string :=
  mkDirectory "/notes"
    (fun p => JsString.starts_with "/notes/" p)
    (fun p => if JsString.starts_with "/notes/" p then Some p else None).

Definition sidecar : string := "/notes/.ztr-virtual-dir".

(** An instance over [notes] holding the records [l] and the view [v]. *)
Definition manager (l : list VirtualDirectoryRecord) (v : list RealDirectory)
  : @t string :=
  mkManager notes sidecar None l v.

(** The instance the constructor builds over [notes] when no sidecar
    file exists. *)
Definition fresh : @world string := snd (constructor path_join hash notes ∅).

(** [add("X", ["/notes/a.md"])] on that instance: the completion and
    the state the call leaves. *)
Definition after_add : completion bool * @world string :=
  add path_join hash (VString "X") ["/notes/a.md"] fresh.

(** An argument of [find] that carries a hash only. *)
Definition by_hash (h : Z) : FindArgument := mkFindArgument (Some h) None None.

(** The instance after [add("Notes")] on [fresh]: one record without
    files. *)
Definition noted : @world string :=
  snd (add path_join hash (VString "Notes") [] fresh).

(** An instance whose [_root] was set to the path of [notes]. *)
Definition rooted : @t string := mkManager notes sidecar (Some "/notes") [] [].

End Sample.

(** * Properties *)

(** ** The JSON text reads back *)

Module JsonFacts.
Import JsString Json.

Lemma append_nil_l (b : string) : EmptyString +:+ b = b.
Proof. reflexivity. Qed.

Lemma append_cons (x : ascii) (a b : string) : String x a +:+ b = String x (a +:+ b).
Proof. reflexivity. Qed.

Lemma append_assoc (a b c : string) : (a +:+ b) +:+ c = a +:+ (b +:+ c).
Proof.
  induction a as [|x a IH]; [reflexivity |].
  rewrite !append_cons. now f_equal.
Qed.

Lemma append_empty_r (a : string) : a +:+ EmptyString = a.
Proof.
  induction a as [|x a IH]; [reflexivity |].
  rewrite append_cons. now f_equal.
Qed.

Lemma length_append (a b : string) :
  String.length (a +:+ b) = (String.length a + String.length b)%nat.
Proof.
  induction a as [|x a IH]; [reflexivity |].
  rewrite append_cons. simpl. now rewrite IH.
Qed.

(** Appends associated to the right, with the leading characters
    exposed. *)
Ltac string_norm :=
  repeat (rewrite append_assoc || rewrite append_cons || rewrite append_nil_l).

Lemma expect_append (lit s : string) : expect lit (lit +:+ s) = Some s.
Proof.
  induction lit as [|a lit IH]; [reflexivity |].
  rewrite append_cons. simpl. now rewrite N.eqb_refl.
Qed.

(** Each code unit, escaped, is read back as itself. *)
Lemma parse_escape_char (c : ascii) (rest : string) :
  parse_string_body (escape_char c +:+ rest) = push_front c (parse_string_body rest).
Proof.
  destruct c as [[] [] [] [] [] [] [] []]; reflexivity.
Qed.

Lemma parse_escape_string (s rest : string) :
  parse_string_body (escape_string s +:+ String dquote rest) = Some (s, rest).
Proof.
  induction s as [|c s IH]; [reflexivity |].
  cbn [escape_string]. rewrite append_assoc, parse_escape_char, IH. reflexivity.
Qed.

Lemma parse_quote (s rest : string) :
  parse_string (quote s +:+ rest) = Some (s, rest).
Proof.
  unfold quote. string_norm. cbn [parse_string].
  change (N_of_ascii dquote =? 34)%N with true. cbn iota.
  apply parse_escape_string.
Qed.

Section Elements.
Context {A : Type} (print : A -> string) (parse_elem : string -> option (A * string)).
Hypothesis parse_print : forall x rest, parse_elem (print x +:+ rest) = Some (x, rest).
Hypothesis print_head :
  forall x, exists c s, print x = String c s /\ (N_of_ascii c =? 93)%N = false.

Lemma join_cons2 (x y : string) (l : list string) :
  join_with_commas (x :: y :: l) = x +:+ "," +:+ join_with_commas (y :: l).
Proof. reflexivity. Qed.

Lemma parse_elems_join (l : list A) : forall (fuel : nat) (rest : string),
  l <> [] -> (length l <= fuel)%nat ->
  parse_elems parse_elem fuel (join_with_commas (print <$> l) +:+ String "]" rest)
  = Some (l, rest).
Proof using parse_print.
  induction l as [|x l IH]; intros fuel rest Hne Hfuel; [congruence |].
  destruct fuel as [|fuel]; [simpl in Hfuel; lia |].
  destruct l as [|y l].
  - cbn [fmap list_fmap join_with_commas parse_elems].
    rewrite parse_print. reflexivity.
  - rewrite !fmap_cons, join_cons2, <- !fmap_cons.
    cbn [parse_elems]. rewrite !append_assoc, parse_print.
    string_norm. change (N_of_ascii "," =? 44)%N with true. cbn iota.
    rewrite IH; [reflexivity | congruence | simpl in *; lia].
Qed.

Lemma length_join (l : list A) :
  (length l <= String.length (join_with_commas (print <$> l)))%nat.
Proof using print_head.
  induction l as [|x l IH]; [simpl; lia |].
  destruct (print_head x) as (c & s & Hx & _).
  destruct l as [|y l].
  - cbn [fmap list_fmap join_with_commas]. rewrite Hx. simpl. lia.
  - rewrite !fmap_cons, join_cons2, <- !fmap_cons.
    rewrite !length_append, Hx. simpl in *. lia.
Qed.

Lemma join_head (x : A) (l : list A) :
  exists c s, join_with_commas (print <$> x :: l) = String c s
              /\ (N_of_ascii c =? 93)%N = false.
Proof using print_head.
  destruct (print_head x) as (c & s & Hx & Hc).
  destruct l as [|y l].
  - exists c, s. cbn [fmap list_fmap join_with_commas]. auto.
  - exists c. eexists. rewrite !fmap_cons, join_cons2, Hx, append_cons. auto.
Qed.

Lemma parse_stringify_array (l : list A) (rest : string) :
  parse_array parse_elem (stringify_array (print <$> l) +:+ rest) = Some (l, rest).
Proof using parse_print print_head.
  unfold stringify_array. destruct l as [|x l]; [reflexivity |].
  string_norm. cbn [parse_array].
  change (N_of_ascii "[" =? 91)%N with true. cbn iota.
  destruct (join_head x l) as (c & s & Hj & Hc).
  pose proof (length_join (x :: l)) as Hlen.
  pose proof (parse_elems_join (x :: l)
                (String.length (join_with_commas (print <$> x :: l) +:+ String "]" rest))
                rest) as Hparse.
  revert Hparse. rewrite Hj, append_cons. intros Hparse.
  rewrite Hc. apply Hparse; [congruence |].
  rewrite Hj in Hlen. cbn [String.length] in *. rewrite length_append. lia.
Qed.
End Elements.

Lemma parse_stringify_record (r : VirtualDirectoryRecord) (rest : string) :
  parse_record (stringify_record r +:+ rest) = Some (r, rest).
Proof.
  destruct r as [n fs]. unfold stringify_record, parse_record. cbn [v_name v_files].
  rewrite !append_assoc, expect_append.
  rewrite parse_quote, expect_append.
  rewrite (parse_stringify_array quote parse_string).
  - reflexivity.
  - apply parse_quote.
  - intros x. exists dquote. eexists. split; reflexivity.
Qed.

(** [JSON.parse(JSON.stringify(l))] is [l] again. *)
Lemma parse_stringify (l : list VirtualDirectoryRecord) :
  parse (stringify l) = Some l.
Proof.
  unfold parse, stringify.
  rewrite <- (append_empty_r (stringify_array (stringify_record <$> l))).
  rewrite (parse_stringify_array stringify_record parse_record).
  - reflexivity.
  - apply parse_stringify_record.
  - intros x. exists "{"%char. eexists. split; reflexivity.
Qed.

End JsonFacts.

(** ** The class *)

Import ZettlrVirtualDirectory.

Section ManagerFacts.
Context {File : Type}.
Variable path_join : string -> string -> string.
Variable hash : string -> Z.

Local Abbreviation world := (@world File).
Local Abbreviation t := (@t File).
Local Abbreviation Directory := (@Directory File).
Local Abbreviation RealDirectory := (@RealDirectory File).
Local Abbreviation _refresh := (_refresh path_join hash).
Local Abbreviation _write := (_write path_join hash).
Local Abbreviation _read := (_read path_join hash).
Local Abbreviation constructor := (constructor path_join hash).
Local Abbreviation add := (add path_join hash).
Local Abbreviation remove := (remove path_join hash).
Local Abbreviation refresh_dir := (refresh_dir path_join hash).
Local Abbreviation refresh_file := (refresh_file path_join).
Local Abbreviation empty_view := (@empty_view File hash).
Local Abbreviation run := (run path_join hash).

#[local] Arguments ZettlrVirtualDirectory._refresh : simpl never.
#[local] Arguments ZettlrVirtualDirectory._write : simpl never.

Ltac unfold_monad :=
  unfold bind, ret, throw, lift, get_this, set_virtualDirectories,
    set_realDirectories, with_virtualDirectories, with_realDirectories in *.

(** *** [_refresh] *)

(** The inner loop throws on the first stored path. *)
Lemma refresh_files (self : t) (fs : list string) (acc : list File) :
  for_of_local fs (refresh_file self) acc
  = match fs with [] => Normal acc | _ :: _ => Throw ReferenceError end.
Proof. destruct fs; reflexivity. Qed.

(** The outer loop pushes an entry for each record up to the first one
    that has files, and throws there. *)
Lemma refresh_loop (l : list VirtualDirectoryRecord) : forall w : world,
  for_of l refresh_dir w
  = (if forallb fileless l then Normal tt else Throw ReferenceError,
     mkWorld (with_realDirectories
                (_realDirectories (this w) ++ (empty_view <$> leading_fileless l))
                (this w))
             (disk w)).
Proof.
  induction l as [|r l IH]; intros [[dir file root recs real] d].
  - cbn. unfold ret, with_realDirectories. cbn. now rewrite app_nil_r.
  - cbn [for_of]. unfold bind at 1. unfold refresh_dir at 1.
    unfold_monad. cbn. rewrite refresh_files.
    destruct r as [n [|f fs]]; cbn.
    + rewrite IH. cbn. now rewrite <- app_assoc.
    + now rewrite app_nil_r.
Qed.

Lemma refresh_spec (w : world) :
  _refresh w
  = (if forallb fileless (_virtualDirectories (this w))
     then Normal tt else Throw ReferenceError,
     mkWorld (with_realDirectories
                (empty_view <$> leading_fileless (_virtualDirectories (this w)))
                (this w))
             (disk w)).
Proof.
  unfold ZettlrVirtualDirectory._refresh. unfold_monad. cbn.
  rewrite refresh_loop. destruct w as [[dir file root recs real] d]. reflexivity.
Qed.

(** *** [_write] *)

Lemma write_nonempty (w : world) :
  _virtualDirectories (this w) <> [] ->
  _write w
  = (if forallb fileless (_virtualDirectories (this w))
     then Normal tt else Throw ReferenceError,
     mkWorld (with_realDirectories
                (empty_view <$> leading_fileless (_virtualDirectories (this w)))
                (this w))
             (<[_file (this w) := Json.stringify (_virtualDirectories (this w))]> (disk w))).
Proof.
  intros Hne. unfold ZettlrVirtualDirectory._write.
  destruct w as [[dir file root recs real] d]. cbn in *.
  destruct recs as [|r recs]; [congruence |].
  unfold bind, writeFileSync. cbn. rewrite refresh_spec. reflexivity.
Qed.

Lemma write_empty (w : world) :
  _virtualDirectories (this w) = [] ->
  _write w
  = match disk w !! _file (this w) with
    | Some _ =>
        (Normal tt,
         mkWorld (with_realDirectories [] (this w)) (delete (_file (this w)) (disk w)))
    | None => (Throw ENOENT, w)
    end.
Proof.
  intros He. unfold ZettlrVirtualDirectory._write.
  destruct w as [[dir file root recs real] d]. cbn in *. subst recs.
  unfold bind, unlinkSync. cbn.
  destruct (d !! file); [| reflexivity].
  rewrite refresh_spec. reflexivity.
Qed.

(** *** [add] *)

Lemma push_files_nil (r : VirtualDirectoryRecord) : push_files [] r = r.
Proof. destruct r. unfold push_files. cbn. now rewrite app_nil_r. Qed.

Lemma push_files_app (a b : list string) (r : VirtualDirectoryRecord) :
  push_files b (push_files a r) = push_files (a ++ b) r.
Proof. unfold push_files. cbn. now rewrite app_assoc. Qed.

(** The loop over [files] pushes, in order, the relative form of every
    reference in scope to the record at index [i]. *)
Lemma add_loop (self : t) (i : nat) (files : list string) : forall w : world,
  for_of files (fun f =>
    if isScope (_directory self) f
    then push_file i (_makeRelative self f)
    else ret tt) w
  = (Normal tt,
     mkWorld (with_virtualDirectories
                (alter (push_files (stored self files)) i (_virtualDirectories (this w)))
                (this w))
             (disk w)).
Proof.
  induction files as [|f files IH]; intros [[dir file root recs real] d].
  - cbn. unfold ret, with_virtualDirectories. cbn.
    rewrite list_alter_id; [reflexivity | apply push_files_nil].
  - cbn [for_of]. unfold bind at 1. unfold stored. cbn [List.filter].
    destruct (isScope (_directory self) f).
    + unfold push_file. unfold_monad. cbn. rewrite IH. cbn.
      unfold with_virtualDirectories. cbn. rewrite list_alter_alter_eq.
      do 3 f_equal. apply list_alter_ext; [| reflexivity].
      intros x _. cbn. apply push_files_app.
    + unfold ret at 1. rewrite IH. reflexivity.
Qed.

Lemma merged_nonempty (name : string) (extra : list string)
    (l : list VirtualDirectoryRecord) :
  merged name extra l <> [].
Proof.
  unfold merged. destruct (list_find _ l) as [[i r]|] eqn:Hf.
  - apply list_find_Some in Hf as (Hi & _).
    intros He. apply (f_equal length) in He. rewrite length_alter in He.
    apply lookup_lt_Some in Hi. cbn in He. lia.
  - destruct l; discriminate.
Qed.

(** [add] with a string name, in closed form: the record list becomes
    [merged ...], the sidecar file receives its JSON text, and the call
    completes exactly when [_refresh] meets no stored path. *)
Lemma add_string (name : string) (files : list string) (w : world) :
  let l := merged name (stored (this w) files) (_virtualDirectories (this w)) in
  add (VString name) files w
  = (if forallb fileless l then Normal true else Throw ReferenceError,
     mkWorld (mkManager (_directory (this w)) (_file (this w)) (_root (this w)) l
                (empty_view <$> leading_fileless l))
             (<[_file (this w) := Json.stringify l]> (disk w))).
Proof.
  intros l. pose proof (merged_nonempty name (stored (this w) files)
                          (_virtualDirectories (this w))) as Hne.
  fold l in Hne. unfold ZettlrVirtualDirectory.add.
  destruct w as [[dir file root recs real] d].
  unfold bind at 1. unfold get_this at 1. cbn [this _virtualDirectories fst snd].
  unfold bind at 1. unfold l, merged in *. cbn [this _virtualDirectories] in *.
  destruct (list_find (same_name name) recs) as [[i r]|] eqn:Hf.
  - unfold ret at 1. unfold bind at 1. rewrite add_loop. cbn [this disk].
    unfold bind at 1. rewrite write_nonempty by exact Hne.
    cbn. destruct (forallb fileless _); reflexivity.
  - unfold bind at 1. unfold set_virtualDirectories at 1. unfold ret at 1.
    unfold bind at 1. rewrite add_loop. cbn [this disk with_virtualDirectories
      _virtualDirectories _directory _file _root _realDirectories].
    replace (alter (push_files (stored _ files)) (length recs) (recs ++ [mkRecord name []]))
      with (recs ++ [mkRecord name (stored (mkManager dir file root recs real) files)]).
    2:{ rewrite <- (Nat.add_0_r (length recs)), alter_app_r. reflexivity. }
    unfold bind at 1. rewrite write_nonempty by exact Hne.
    cbn. destruct (forallb fileless _); reflexivity.
Qed.

(** *** [remove] *)

Lemma world_eta (w : world) : mkWorld (this w) (disk w) = w.
Proof. now destruct w. Qed.

Lemma remove_unknown (name : string) (hashes : list Z) (w : world) :
  list_find (same_name name) (_virtualDirectories (this w)) = None ->
  remove (VString name) hashes w = (Normal tt, w).
Proof.
  intros Hf. unfold ZettlrVirtualDirectory.remove, find_by_name.
  unfold_monad. cbn. now rewrite Hf.
Qed.

Lemma remove_whole (name : string) (w : world) (i : nat) (r : VirtualDirectoryRecord) :
  list_find (same_name name) (_virtualDirectories (this w)) = Some (i, r) ->
  remove (VString name) [] w
  = _write (mkWorld (with_virtualDirectories (delete i (_virtualDirectories (this w)))
                       (this w))
                    (disk w)).
Proof.
  intros Hf. unfold ZettlrVirtualDirectory.remove, find_by_name.
  unfold_monad. cbn. rewrite Hf. cbn.
  destruct (_write _) as [[] ?]; reflexivity.
Qed.

(** With hashes to remove, the first turn of the loop calls [dir.find]
    and throws; nothing has been changed by then. *)
Lemma remove_listed (name : string) (h : Z) (hashes : list Z) (w : world)
    (i : nat) (r : VirtualDirectoryRecord) :
  list_find (same_name name) (_virtualDirectories (this w)) = Some (i, r) ->
  remove (VString name) (h :: hashes) w = (Throw TypeError, w).
Proof.
  intros Hf. unfold ZettlrVirtualDirectory.remove, find_by_name.
  unfold_monad. cbn. rewrite Hf. reflexivity.
Qed.

Lemma remove_non_string (name : js_value) (hashes : list Z) (w : world) :
  typeof name <> "string" ->
  remove name hashes w
  = match _virtualDirectories (this w) with
    | [] => (Normal tt, w)
    | _ :: _ => (Throw TypeError, w)
    end.
Proof.
  intros Hn. unfold ZettlrVirtualDirectory.remove, find_by_name. unfold_monad.
  destruct name; cbn in Hn; try congruence;
    cbn; destruct (_virtualDirectories (this w)); reflexivity.
Qed.

(** *** [_read] and the constructor *)

Lemma read_absent (w : world) :
  disk w !! _file (this w) = None -> _read w = (Normal false, w).
Proof.
  intros Hd. unfold ZettlrVirtualDirectory._read.
  unfold try_catch, lstatSync. unfold_monad. cbn. now rewrite Hd.
Qed.

Lemma read_present (w : world) (txt : string) (l : list VirtualDirectoryRecord) :
  disk w !! _file (this w) = Some txt ->
  Json.parse txt = Some l ->
  _read w
  = (if forallb fileless l then Normal true else Throw ReferenceError,
     mkWorld (mkManager (_directory (this w)) (_file (this w)) (_root (this w)) l
                (empty_view <$> leading_fileless l))
             (disk w)).
Proof.
  intros Hd Hp. unfold ZettlrVirtualDirectory._read.
  unfold try_catch, lstatSync, readFileSync, JSON_parse.
  destruct w as [[dir file root recs real] d]. cbn in Hd.
  unfold_monad. cbn. rewrite Hd. cbn. rewrite Hd, Hp. cbn.
  rewrite refresh_spec.
  cbn. destruct (forallb fileless l); reflexivity.
Qed.

(** [_write] and [add] leave [_directory], [_file] and [_root] alone, and
    [_write] the record list too. *)
Lemma write_records (w : world) :
  _virtualDirectories (this (snd (_write w))) = _virtualDirectories (this w).
Proof.
  destruct (_virtualDirectories (this w)) as [|r l] eqn:Hl.
  - rewrite write_empty by exact Hl. destruct (disk w !! _file (this w)); cbn; auto.
  - rewrite write_nonempty by congruence. cbn. auto.
Qed.

(** *** Names *)

Lemma names_push_files (extra : list string) (i : nat) (l : list VirtualDirectoryRecord) :
  (fun r => JsString.toLowerCase (v_name r)) <$> alter (push_files extra) i l
  = (fun r => JsString.toLowerCase (v_name r)) <$> l.
Proof.
  rewrite (list_fmap_alter _ (push_files extra) id).
  - now apply list_alter_id.
  - apply Forall_forall. now intros [n fs] _.
Qed.

Lemma names_unique_merged (name : string) (extra : list string)
    (l : list VirtualDirectoryRecord) :
  names_unique l -> names_unique (merged name extra l).
Proof.
  unfold names_unique, merged. intros Hu.
  destruct (list_find (same_name name) l) as [[i r]|] eqn:Hf.
  - now rewrite names_push_files.
  - rewrite fmap_app. apply NoDup_app. split; [exact Hu |]. split.
    + intros x Hx Hin. cbn in Hin. apply list_elem_of_singleton in Hin. subst x.
      apply list_elem_of_fmap in Hx as (r & Hr & Hin).
      apply list_find_None in Hf. rewrite Forall_forall in Hf.
      apply (Hf r Hin). unfold same_name. congruence.
    + cbn. apply NoDup_singleton.
Qed.

Lemma names_unique_delete (i : nat) (l : list VirtualDirectoryRecord) :
  names_unique l -> names_unique (delete i l).
Proof.
  unfold names_unique. intros Hu. rewrite list_fmap_delete.
  eapply sublist_NoDup; [exact Hu | apply sublist_delete].
Qed.

(** *** The claims on every state *)

(** C7. When the argument [name] is not a string, [add] returns [false]
    and throws nothing; the record list, the derived view and the files
    on disk are left as they were, so the sidecar file is neither
    written nor deleted. *)
Theorem add_rejects_non_string (name : js_value) (files : list string) (w : world) :
  typeof name <> "string" ->
  add name files w = (Normal false, w).
Proof.
  intros Hn. destruct name; cbn in Hn; try congruence; reflexivity.
Qed.

(** C8. When the sidecar file is absent, the constructor completes
    without an error, and the instance it builds has an empty record
    list and an empty derived view; the disk is untouched. *)
Theorem constructor_without_sidecar (dir : Directory) (d : gmap string string) :
  d !! path_join (getPath dir) ".ztr-virtual-dir" = None ->
  constructor dir d
  = (Normal tt,
     mkWorld (mkManager dir (path_join (getPath dir) ".ztr-virtual-dir") None [] []) d).
Proof.
  intros Hd. unfold ZettlrVirtualDirectory.constructor.
  unfold bind. rewrite read_absent by exact Hd. reflexivity.
Qed.

Lemma find_loop_first (h : Z) (pre post : list RealDirectory) (dir : RealDirectory) :
  r_hash dir = h ->
  Forall (fun e => r_hash e <> h) pre ->
  find_loop h (pre ++ dir :: post) = Some dir.
Proof.
  intros Hh Hpre. induction Hpre as [|e pre He _ IH]; cbn.
  - apply Z.eqb_eq in Hh. now rewrite Hh.
  - apply Z.eqb_neq in He. now rewrite He.
Qed.

Lemma find_loop_none (h : Z) (l : list RealDirectory) :
  Forall (fun e => r_hash e <> h) l -> find_loop h l = None.
Proof.
  induction 1 as [|e l He _ IH]; cbn; [reflexivity |].
  apply Z.eqb_neq in He. now rewrite He.
Qed.

(** C10. [find] looks at the [hash] property only.  An argument
    without an own [hash] gets [null], whatever the derived view holds
    and whatever [path] or [name] the argument carries.  An argument
    with a [hash] gets the first entry of the derived view that has
    this hash, and [null] when no entry has it. *)
Theorem find_matches_hash_only (self : t) (obj : FindArgument) :
  (hash_property obj = None -> find self obj = None)
  /\ (forall (h : Z) (pre post : list RealDirectory) (dir : RealDirectory),
        hash_property obj = Some h ->
        _realDirectories self = pre ++ dir :: post ->
        r_hash dir = h ->
        Forall (fun e => r_hash e <> h) pre ->
        find self obj = Some dir)
  /\ (forall h : Z,
        hash_property obj = Some h ->
        Forall (fun e => r_hash e <> h) (_realDirectories self) ->
        find self obj = None).
Proof.
  unfold find. split; [| split].
  - now intros ->.
  - intros h pre post dir -> -> Hh Hpre. now apply find_loop_first.
  - intros h -> Hall. now apply find_loop_none.
Qed.

(** Whenever [_write] completes, the sidecar file agrees with the
    record list. *)
Lemma write_consistent (w w' : world) :
  _write w = (Normal tt, w') -> sidecar_consistent w'.
Proof.
  destruct w as [[dir file root [|r l] real] d].
  - rewrite write_empty by reflexivity. cbn.
    destruct (d !! file); [| discriminate].
    intros [= <-]. unfold sidecar_consistent. cbn. apply lookup_delete_eq.
  - rewrite write_nonempty by (cbn; congruence). cbn.
    destruct (fileless r && forallb fileless l); [| discriminate].
    intros [= <-]. unfold sidecar_consistent. cbn. eexists.
    split; [apply lookup_insert_eq | apply JsonFacts.parse_stringify].
Qed.

(** C4. A call of [add] or [remove] that gets past its guard and runs
    to completion leaves the sidecar file in agreement with the record
    list: no file when the list is empty, and otherwise a file whose
    text [JSON.parse] reads back as exactly the list.  A call that its
    guard stops changes neither the instance nor the disk. *)
Theorem sidecar_agrees_after_mutation (c : call) (w w' : world) :
  run c w = (Normal tt, w') ->
  if passes_guard c w then sidecar_consistent w' else w' = w.
Proof.
  destruct c as [name files | name hashes]; cbn [ZettlrVirtualDirectory.run].
  - destruct name as [| | b | n | name];
      try (cbn; intros [= <-]; reflexivity).
    unfold bind. rewrite add_string. cbn [passes_guard].
    pose proof (merged_nonempty name (stored (this w) files)
                  (_virtualDirectories (this w))) as Hne.
    destruct (forallb fileless _); [| discriminate].
    intros [= <-]. unfold sidecar_consistent. cbn [this disk _virtualDirectories _file].
    destruct (merged _ _ _) as [|r l] eqn:Hm; [congruence |].
    eexists. split; [apply lookup_insert_eq | apply JsonFacts.parse_stringify].
  - destruct name as [| | b | n | name].
    1-4: rewrite remove_non_string by (cbn; congruence); cbn [passes_guard];
         destruct (_virtualDirectories (this w)); now intros [= <-].
    cbn [passes_guard].
    destruct (list_find (same_name name) (_virtualDirectories (this w)))
      as [[i r]|] eqn:Hf.
    + destruct hashes as [|h hashes].
      * rewrite (remove_whole _ _ _ _ Hf). apply write_consistent.
      * rewrite (remove_listed _ _ _ _ _ _ Hf). discriminate.
    + rewrite remove_unknown by exact Hf. now intros [= <-].
Qed.

(** *** Merging *)

Lemma stored_same_directory (self self' : t) (files : list string) :
  _directory self' = _directory self -> _root self' = _root self ->
  stored self' files = stored self files.
Proof.
  intros Hd Hr. unfold stored. rewrite Hd. f_equal.
  unfold _makeRelative, _isAbsolute, root_ToString. now rewrite Hr.
Qed.

Lemma find_same_name_fold (n1 n2 : string) (l : list VirtualDirectoryRecord) :
  JsString.toLowerCase n1 = JsString.toLowerCase n2 ->
  list_find (same_name n2) l = list_find (same_name n1) l.
Proof.
  intros Hn. apply list_find_ext. intros x. unfold same_name. now rewrite Hn.
Qed.

(** The record that matched still matches, at the same index, after
    files were pushed to it. *)
Lemma find_after_push (name : string) (extra : list string) (i : nat)
    (r : VirtualDirectoryRecord) (l : list VirtualDirectoryRecord) :
  list_find (same_name name) l = Some (i, r) ->
  list_find (same_name name) (alter (push_files extra) i l)
  = Some (i, push_files extra r).
Proof.
  intros (Hi & Hp & Hlt)%list_find_Some. apply list_find_Some. split; [| split].
  - now rewrite list_lookup_alter_eq, Hi.
  - exact Hp.
  - intros j y Hj Hji. rewrite list_lookup_alter_ne in Hj by lia. eauto.
Qed.

Lemma find_after_append (name : string) (x : VirtualDirectoryRecord)
    (l : list VirtualDirectoryRecord) :
  list_find (same_name name) l = None ->
  same_name name x ->
  list_find (same_name name) (l ++ [x]) = Some (length l, x).
Proof.
  intros Hf Hx. apply list_find_Some. split; [| split].
  - apply list_lookup_middle. reflexivity.
  - exact Hx.
  - intros j y Hj Hlt. rewrite lookup_app_l in Hj by exact Hlt.
    apply list_find_None in Hf. rewrite Forall_forall in Hf.
    apply Hf. eapply list_elem_of_lookup_2. exact Hj.
Qed.

(** Two merges under names equal up to case are one merge under the
    first name. *)
Lemma merged_twice (n1 n2 : string) (s1 s2 : list string)
    (l : list VirtualDirectoryRecord) :
  JsString.toLowerCase n1 = JsString.toLowerCase n2 ->
  merged n2 s2 (merged n1 s1 l) = merged n1 (s1 ++ s2) l.
Proof.
  intros Hn. unfold merged at 1. rewrite (find_same_name_fold n1 n2) by exact Hn.
  unfold merged. destruct (list_find (same_name n1) l) as [[i r]|] eqn:Hf.
  - rewrite (find_after_push _ _ _ _ _ Hf). rewrite list_alter_alter_eq.
    apply list_alter_ext; [| reflexivity]. intros x _. apply push_files_app.
  - rewrite (find_after_append n1 (mkRecord n1 s1) l Hf) by reflexivity.
    rewrite <- (Nat.add_0_r (length l)), alter_app_r. reflexivity.
Qed.

Lemma add_records (name : string) (files : list string) (w : world) :
  _virtualDirectories (this (snd (add (VString name) files w)))
  = merged name (stored (this w) files) (_virtualDirectories (this w)).
Proof. rewrite add_string. reflexivity. Qed.

Lemma add_same_directory (name : js_value) (files : list string) (w : world) :
  _directory (this (snd (add name files w))) = _directory (this w)
  /\ _root (this (snd (add name files w))) = _root (this w)
  /\ _file (this (snd (add name files w))) = _file (this w).
Proof.
  destruct name; try (cbn; auto; fail). rewrite add_string. cbn. auto.
Qed.

(** C6. Names that differ pairwise, letter case aside, still do so
    after [add] and after [remove], whether the call completes or
    throws, and in an instance built over a sidecar file that holds the
    JSON text of such a list.  Two calls of [add] under names equal up to case leave the
    record list that one call under the first name with both file
    lists leaves; from a list without such a name this is the list
    with one new record, which holds the files of the first call
    followed by those of the second. *)
Theorem names_stay_unique (w : world) :
  (forall (name : js_value) (files : list string),
      names_unique (_virtualDirectories (this w)) ->
      names_unique (_virtualDirectories (this (snd (add name files w)))))
  /\ (forall (name : js_value) (hashes : list Z),
        names_unique (_virtualDirectories (this w)) ->
        names_unique (_virtualDirectories (this (snd (remove name hashes w)))))
  /\ (forall (dir : Directory) (d : gmap string string)
             (l : list VirtualDirectoryRecord),
        d !! path_join (getPath dir) ".ztr-virtual-dir" = Some (Json.stringify l) ->
        names_unique l ->
        names_unique (_virtualDirectories (this (snd (constructor dir d)))))
  /\ (forall (n1 n2 : string) (fs1 fs2 : list string),
        JsString.toLowerCase n1 = JsString.toLowerCase n2 ->
        let w2 := snd (add (VString n2) fs2 (snd (add (VString n1) fs1 w))) in
        _virtualDirectories (this w2)
        = merged n1 (stored (this w) fs1 ++ stored (this w) fs2)
            (_virtualDirectories (this w))
        /\ (list_find (same_name n1) (_virtualDirectories (this w)) = None ->
            _virtualDirectories (this w2)
            = _virtualDirectories (this w)
                ++ [mkRecord n1 (stored (this w) fs1 ++ stored (this w) fs2)])).
Proof.
  split; [| split; [| split]].
  - intros name files Hu. destruct name; try exact Hu.
    rewrite add_records. now apply names_unique_merged.
  - intros name hashes Hu.
    destruct name as [| | b | n | name].
    1-4: rewrite remove_non_string by (cbn; congruence);
         destruct (_virtualDirectories (this w)) eqn:Hl; cbn; rewrite Hl; exact Hu.
    destruct (list_find (same_name name) (_virtualDirectories (this w)))
      as [[i r]|] eqn:Hf.
    + destruct hashes as [|h hashes].
      * rewrite (remove_whole _ _ _ _ Hf), write_records. cbn.
        now apply names_unique_delete.
      * rewrite (remove_listed _ _ _ _ _ _ Hf). exact Hu.
    + rewrite remove_unknown by exact Hf. exact Hu.
  - intros dir d l Hd Hu. unfold ZettlrVirtualDirectory.constructor. unfold bind.
    erewrite read_present;
      [| exact Hd | apply JsonFacts.parse_stringify].
    destruct (forallb fileless l); exact Hu.
  - intros n1 n2 fs1 fs2 Hn w2.
    assert (_virtualDirectories (this w2)
            = merged n1 (stored (this w) fs1 ++ stored (this w) fs2)
                (_virtualDirectories (this w))) as Hm.
    { unfold w2. rewrite add_records.
      destruct (add_same_directory (VString n1) fs1 w) as (Hd & Hr & _).
      rewrite (stored_same_directory (this w) _ fs2 Hd Hr).
      rewrite add_records. now apply merged_twice. }
    split; [exact Hm |].
    intros Hf. rewrite Hm. unfold merged. now rewrite Hf.
Qed.

(** C9. [add] does not look for a reference that is already stored.
    When the record that matches [name] already holds the stored form
    of an in-scope reference [f], [add(name, [f])] pushes that form
    once more at the end: the files of the record hold it at two
    places, every other record is as before, and the sidecar file holds
    the JSON text of this list.  (The call then throws in [_refresh].) *)
Theorem add_keeps_duplicates (name f : string) (w : world) (i : nat)
    (r : VirtualDirectoryRecord) :
  list_find (same_name name) (_virtualDirectories (this w)) = Some (i, r) ->
  isScope (_directory (this w)) f = true ->
  _makeRelative (this w) f ∈ v_files r ->
  let p := _makeRelative (this w) f in
  let w' := snd (add (VString name) [f] w) in
  _virtualDirectories (this w')
  = <[i := mkRecord (v_name r) (v_files r ++ [p])]> (_virtualDirectories (this w))
  /\ (exists a b : list string, v_files r ++ [p] = a ++ p :: b ++ [p])
  /\ disk w' !! _file (this w) = Some (Json.stringify (_virtualDirectories (this w')))
  /\ Json.parse (Json.stringify (_virtualDirectories (this w')))
     = Some (_virtualDirectories (this w')).
Proof.
  intros Hf Hscope Hin p w'.
  assert (stored (this w) [f] = [p]) as Hs.
  { unfold stored. cbn. now rewrite Hscope. }
  split; [| split; [| split]].
  - unfold w'. rewrite add_records, Hs. unfold merged. rewrite Hf.
    rewrite list_insert_alter. apply list_alter_ext; [| reflexivity].
    intros x Hx. apply list_find_Some in Hf as (Hi & _).
    rewrite Hi in Hx. injection Hx as <-. reflexivity.
  - apply list_elem_of_split in Hin as (a & b & Hab).
    exists a, b. rewrite Hab at 1. now rewrite <- app_assoc.
  - unfold w'. rewrite add_string. cbn. apply lookup_insert_eq.
  - apply JsonFacts.parse_stringify.
Qed.

(** *** Where the class throws *)

Lemma forallb_fileless_lookup (l : list VirtualDirectoryRecord) (i : nat)
    (r : VirtualDirectoryRecord) :
  l !! i = Some r -> fileless r = false -> forallb fileless l = false.
Proof.
  revert i. induction l as [|x l IH]; intros [|i] Hi Hr; cbn in *; try discriminate.
  - injection Hi as ->. now rewrite Hr.
  - rewrite (IH i Hi Hr). apply andb_false_r.
Qed.

Lemma fileless_push_files (x : string) (extra : list string) (r : VirtualDirectoryRecord) :
  fileless (push_files (x :: extra) r) = false.
Proof. unfold fileless, push_files. cbn. now destruct (v_files r). Qed.

(** After [add] pushed a reference, the record list holds a stored
    path. *)
Lemma merged_has_files (name x : string) (extra : list string)
    (l : list VirtualDirectoryRecord) :
  forallb fileless (merged name (x :: extra) l) = false.
Proof.
  unfold merged. destruct (list_find (same_name name) l) as [[i r]|] eqn:Hf.
  - apply list_find_Some in Hf as (Hi & _).
    apply (forallb_fileless_lookup _ i (push_files (x :: extra) r)).
    + now rewrite list_lookup_alter_eq, Hi.
    + apply fileless_push_files.
  - apply (forallb_fileless_lookup _ (length l) (mkRecord name (x :: extra))).
    + apply list_lookup_middle. reflexivity.
    + reflexivity.
Qed.

(** [add] with a reference in scope throws in [_refresh], after the
    record list and the sidecar file were updated. *)
Lemma add_in_scope_throws (name f : string) (files : list string) (w : world) :
  isScope (_directory (this w)) f = true ->
  fst (add (VString name) (f :: files) w) = Throw ReferenceError.
Proof.
  intros Hscope. rewrite add_string. cbn [fst].
  unfold stored. cbn [List.filter]. rewrite Hscope. cbn [fmap list_fmap].
  now rewrite merged_has_files.
Qed.

(** No entry that [add] leaves in the derived view has a child. *)
Lemma add_view_childless (name : string) (files : list string) (w : world) :
  Forall (fun e => r_children e = [])
    (_realDirectories (this (snd (add (VString name) files w)))).
Proof.
  rewrite add_string. cbn. apply Forall_fmap, Forall_forall. now intros.
Qed.

(** *** Relative paths *)

Lemma indexOf_from_positive (pat s : string) (i : Z) :
  0 < i -> JsString.indexOf_from pat s i <> 0.
Proof.
  revert i. induction s as [|c s IH]; intros i Hi; cbn.
  - destruct (JsString.starts_with pat EmptyString); lia.
  - destruct (JsString.starts_with pat (String c s)); [lia |]. apply IH. lia.
Qed.

Lemma indexOf_zero (p pat : string) :
  (JsString.indexOf p pat =? 0) = JsString.starts_with pat p.
Proof.
  unfold JsString.indexOf. destruct p as [|c p]; cbn.
  - now destruct (JsString.starts_with pat EmptyString).
  - destruct (JsString.starts_with pat (String c p)); [reflexivity |].
    apply Z.eqb_neq, indexOf_from_positive. lia.
Qed.

(** With [_root] undefined, a path is taken for absolute only when it
    begins with the text [undefined]; any other path is stored as it
    was given. *)
Lemma make_relative_without_root (self : t) (p : string) :
  _root self = None ->
  JsString.starts_with "undefined" p = false ->
  _makeRelative self p = p.
Proof.
  intros Hr Hp. unfold _makeRelative, _isAbsolute, root_ToString.
  now rewrite Hr, indexOf_zero, Hp.
Qed.

(** *** Reading back what was written *)

(** When [_write] completes on a list that is not empty, a fresh
    instance over the same directory and the disk it left builds the
    same derived view. *)
Lemma read_after_write (w w' : world) :
  _file (this w) = path_join (getPath (_directory (this w))) ".ztr-virtual-dir" ->
  _virtualDirectories (this w) <> [] ->
  _write w = (Normal tt, w') ->
  exists w2 : world,
    constructor (_directory (this w)) (disk w') = (Normal tt, w2)
    /\ _virtualDirectories (this w2) = _virtualDirectories (this w')
    /\ _realDirectories (this w2) = _realDirectories (this w').
Proof.
  intros Hfile Hne. rewrite write_nonempty by exact Hne.
  destruct (forallb fileless (_virtualDirectories (this w))) eqn:Hall; [| discriminate].
  intros [= <-]. cbn [disk this with_realDirectories _realDirectories _virtualDirectories].
  unfold ZettlrVirtualDirectory.constructor. unfold bind.
  erewrite read_present.
  - rewrite Hall. unfold ret. eexists. split; [reflexivity |]. cbn. auto.
  - cbn. rewrite <- Hfile. apply lookup_insert_eq.
  - apply JsonFacts.parse_stringify.
Qed.

(** ** Further properties of the class *)

Local Abbreviation reachable := (reachable path_join hash).

(** *** When a call completes *)

Lemma leading_fileless_all (l : list VirtualDirectoryRecord) :
  forallb fileless l = true -> leading_fileless l = l.
Proof.
  induction l as [|r l IH]; [reflexivity |]. cbn.
  destruct (fileless r); [| discriminate]. cbn. intros H. now rewrite IH.
Qed.

Lemma write_completed (w w' : world) :
  _write w = (Normal tt, w') ->
  _virtualDirectories (this w') = _virtualDirectories (this w)
  /\ forallb fileless (_virtualDirectories (this w)) = true
  /\ _realDirectories (this w') = empty_view <$> _virtualDirectories (this w).
Proof.
  destruct w as [[dir file root [|r l] real] d].
  - rewrite write_empty by reflexivity. cbn.
    destruct (d !! file); [| discriminate].
    intros [= <-]. cbn. auto.
  - rewrite write_nonempty by (cbn; congruence).
    cbn [this _virtualDirectories].
    destruct (forallb fileless (r :: l)) eqn:Hall; [| discriminate].
    intros [= <-]. pose proof (leading_fileless_all _ Hall) as Hlead.
    cbn in Hlead |- *. rewrite Hlead. auto.
Qed.

Lemma run_completed (c : call) (w w' : world) :
  run c w = (Normal tt, w') ->
  passes_guard c w = true ->
  forallb fileless (_virtualDirectories (this w')) = true
  /\ _realDirectories (this w') = empty_view <$> _virtualDirectories (this w').
Proof.
  destruct c as [name files | name hashes]; cbn [ZettlrVirtualDirectory.run].
  - destruct name as [| | b | n | name]; try (cbn; discriminate).
    unfold bind. rewrite add_string.
    destruct (forallb fileless _) eqn:Hall; [| discriminate].
    intros [= <-] _. cbn [this _virtualDirectories _realDirectories].
    now rewrite (leading_fileless_all _ Hall).
  - destruct name as [| | b | n | name]; try (cbn; discriminate).
    cbn [passes_guard].
    destruct (list_find (same_name name) (_virtualDirectories (this w)))
      as [[i r]|] eqn:Hf; [| discriminate].
    destruct hashes as [|h hashes].
    + rewrite (remove_whole _ _ _ _ Hf). intros Hw _.
      apply write_completed in Hw as (Hr & Hall & Hv).
      rewrite Hr, Hv. auto.
    + rewrite (remove_listed _ _ _ _ _ _ Hf). discriminate.
Qed.

(** X1. A call of [add] or [remove] that gets past its guard completes only
    when no record holds a file, and then the derived view is in step
    with the record list: one entry per record, in order, with the
    name of the record, the hash of that name, the type [virtualdir]
    and no child. *)
Theorem completed_call_view (c : call) (w w' : world) :
  run c w = (Normal tt, w') ->
  passes_guard c w = true ->
  forallb fileless (_virtualDirectories (this w')) = true
  /\ _realDirectories (this w') = empty_view <$> _virtualDirectories (this w').
Proof. apply run_completed. Qed.

(** *** [find] after a call that completed *)

Lemma find_loop_view (h : Z) (l : list VirtualDirectoryRecord) :
  find_loop h (empty_view <$> l)
  = (fun p => empty_view (snd p)) <$> list_find (fun r => hash (v_name r) = h) l.
Proof.
  induction l as [|r l IH]; [reflexivity |].
  cbn [fmap list_fmap find_loop list_find]. cbn [ZettlrVirtualDirectory.empty_view r_hash].
  destruct (decide (hash (v_name r) = h)) as [He | Hne].
  - apply Z.eqb_eq in He as He'. rewrite He'. cbn.
    destruct (decide (hash (v_name r) = h)); [reflexivity | contradiction].
  - apply Z.eqb_neq in Hne as Hne'. rewrite Hne'.
    fold (@fmap list _ _ _ empty_view l). rewrite IH. cbn.
    destruct (decide (hash (v_name r) = h)); [contradiction |].
    now destruct (list_find _ l) as [[j x]|].
Qed.

(** X2. After such a call, [find] answers from the record list: for an
    argument with a hash it returns the entry of the first record whose
    name has this hash, and [null] when no record has one. *)
Theorem find_after_completed_call (c : call) (w w' : world) (obj : FindArgument) :
  run c w = (Normal tt, w') ->
  passes_guard c w = true ->
  find (this w') obj
  = match hash_property obj with
    | Some h =>
        (fun p => empty_view (snd p))
          <$> list_find (fun r => hash (v_name r) = h) (_virtualDirectories (this w'))
    | None => None
    end.
Proof.
  intros Hrun Hguard.
  destruct (run_completed c w w' Hrun Hguard) as (_ & Hv).
  unfold find. rewrite Hv. destruct (hash_property obj); [| reflexivity].
  apply find_loop_view.
Qed.

(** *** More on [add] *)





(** X5. [add] only appends.  Every record of before is still at its index
    with its name, and its files are a prefix of the files it has now;
    the list grows by one record at most. *)
Theorem add_only_appends (name : string) (files : list string) (w : world) :
  let l := _virtualDirectories (this w) in
  let l' := _virtualDirectories (this (snd (add (VString name) files w))) in
  (length l <= length l' <= S (length l))%nat
  /\ forall (j : nat) (r : VirtualDirectoryRecord),
       l !! j = Some r ->
       exists extra : list string,
         l' !! j = Some (mkRecord (v_name r) (v_files r ++ extra)).
Proof.
  intros l l'. unfold l'. rewrite add_records. fold l. unfold merged.
  destruct (list_find (same_name name) l) as [[i r0]|] eqn:Hf.
  - split; [rewrite length_alter; lia |].
    intros j r Hj. destruct (decide (i = j)) as [-> | Hne].
    + eexists. rewrite list_lookup_alter_eq, Hj. reflexivity.
    + exists []. rewrite list_lookup_alter_ne by exact Hne.
      rewrite Hj, app_nil_r. now destruct r.
  - split; [rewrite length_app; cbn; lia |].
    intros j r Hj. exists [].
    rewrite lookup_app_l by (eapply lookup_lt_Some; exact Hj).
    rewrite Hj, app_nil_r. now destruct r.
Qed.

Lemma filter_twice (p : string -> bool) (files : list string) :
  List.filter p (List.filter p files) = List.filter p files.
Proof.
  induction files as [|f files IH]; [reflexivity |].
  cbn. destruct (p f) eqn:Hp; [| exact IH]. cbn. now rewrite Hp, IH.
Qed.

(** X6. References out of scope are dropped without a trace: [add] with
    [files] is [add] with the references of [files] that are in scope,
    in completion, instance and disk. *)
Theorem add_ignores_out_of_scope (name : string) (files : list string) (w : world) :
  add (VString name) files w
  = add (VString name) (List.filter (isScope (_directory (this w))) files) w.
Proof.
  rewrite !add_string. unfold stored. now rewrite filter_twice.
Qed.

(** X7. Adding a name again, up to case and without files, changes
    nothing: the second call leaves the instance and the disk of the
    first, and completes as the first did. *)
Theorem add_again_without_files (n1 n2 : string) (files : list string) (w : world) :
  JsString.toLowerCase n1 = JsString.toLowerCase n2 ->
  add (VString n2) [] (snd (add (VString n1) files w)) = add (VString n1) files w.
Proof.
  intros Hn. rewrite (add_string n2). rewrite !add_string.
  cbn [snd this disk _virtualDirectories _directory _file _root].
  assert (stored (mkManager (_directory (this w)) (_file (this w)) (_root (this w))
                    (merged n1 (stored (this w) files) (_virtualDirectories (this w)))
                    (empty_view <$> leading_fileless
                       (merged n1 (stored (this w) files) (_virtualDirectories (this w)))))
                 [] = []) as -> by reflexivity.
  rewrite (merged_twice n1 n2 _ _ _ Hn), app_nil_r.
  now rewrite insert_insert_eq.
Qed.

(** X8. [add] of a name the list does not have, then [remove] of it with no
    hashes, gives the record list of before. *)
Theorem add_then_remove (n1 n2 : string) (files : list string) (w : world) :
  JsString.toLowerCase n1 = JsString.toLowerCase n2 ->
  list_find (same_name n1) (_virtualDirectories (this w)) = None ->
  _virtualDirectories
    (this (snd (remove (VString n2) [] (snd (add (VString n1) files w)))))
  = _virtualDirectories (this w).
Proof.
  intros Hn Hf.
  assert (_virtualDirectories (this (snd (add (VString n1) files w)))
          = _virtualDirectories (this w) ++ [mkRecord n1 (stored (this w) files)]) as Hl.
  { rewrite add_records. unfold merged. now rewrite Hf. }
  assert (list_find (same_name n2)
            (_virtualDirectories (this (snd (add (VString n1) files w))))
          = Some (length (_virtualDirectories (this w)),
                  mkRecord n1 (stored (this w) files))) as Hf2.
  { rewrite Hl, (find_same_name_fold n1 n2) by exact Hn.
    now apply find_after_append. }
  rewrite (remove_whole _ _ _ _ Hf2), write_records.
  cbn [this with_virtualDirectories _virtualDirectories]. rewrite Hl.
  rewrite delete_take_drop, take_app_length.
  rewrite drop_ge by (rewrite length_app; cbn; lia).
  apply app_nil_r.
Qed.

(** *** More on [remove] *)

Lemma delete_no_match (name : string) (i : nat) (r : VirtualDirectoryRecord)
    (l : list VirtualDirectoryRecord) :
  names_unique l -> l !! i = Some r -> same_name name r ->
  list_find (same_name name) (delete i l) = None.
Proof.
  intros Hu Hi Hr. apply list_find_None, Forall_forall. intros x Hx Hsame.
  apply list_elem_of_lookup_1 in Hx as [j Hj].
  assert (exists k, k <> i /\ l !! k = Some x) as (k & Hk & Hlk).
  { destruct (decide (j < i)%nat) as [Hlt | Hge].
    - exists j. rewrite list_lookup_delete_lt in Hj by exact Hlt. split; [lia | exact Hj].
    - exists (S j). rewrite list_lookup_delete_ge in Hj by lia. split; [lia | exact Hj]. }
  apply Hk. unfold names_unique in Hu.
  apply (NoDup_lookup _ k i (JsString.toLowerCase (v_name x)) Hu).
  - now rewrite list_lookup_fmap, Hlk.
  - rewrite list_lookup_fmap, Hi. cbn. unfold same_name in *. congruence.
Qed.

(** X9. [remove] with no hashes takes out the first record that has the
    name up to case and keeps the others in their order.  When names
    are unique no record of that name is left, and removing the name
    once more does nothing. *)
Theorem remove_first_match (name : string) (w : world) (i : nat)
    (r : VirtualDirectoryRecord) :
  list_find (same_name name) (_virtualDirectories (this w)) = Some (i, r) ->
  let w' := snd (remove (VString name) [] w) in
  _virtualDirectories (this w') = delete i (_virtualDirectories (this w))
  /\ (names_unique (_virtualDirectories (this w)) ->
      list_find (same_name name) (_virtualDirectories (this w')) = None
      /\ forall hashes : list Z, remove (VString name) hashes w' = (Normal tt, w')).
Proof.
  intros Hf w'.
  assert (_virtualDirectories (this w') = delete i (_virtualDirectories (this w))) as Hl.
  { unfold w'. now rewrite (remove_whole _ _ _ _ Hf), write_records. }
  split; [exact Hl |]. intros Hu.
  apply list_find_Some in Hf as (Hi & Hr & _).
  assert (list_find (same_name name) (_virtualDirectories (this w')) = None) as Hnone.
  { rewrite Hl. now apply (delete_no_match name i r). }
  split; [exact Hnone |]. intros hashes. now apply remove_unknown.
Qed.

(** X10. A call of [remove] that finds no record leaves the instance and the
    disk as they were.  It returns, except under a name that is not a
    string on a list that is not empty: there the callback of the
    search throws a [TypeError]. *)
Theorem remove_stopped_by_guard (name : js_value) (hashes : list Z) (w : world) :
  passes_guard (Remove name hashes) w = false ->
  remove name hashes w
  = (match name, _virtualDirectories (this w) with
     | VString _, _ => Normal tt
     | _, [] => Normal tt
     | _, _ :: _ => Throw TypeError
     end, w).
Proof.
  intros Hg. destruct name as [| | b | n | name].
  1-4: rewrite remove_non_string by (cbn; congruence);
       now destruct (_virtualDirectories (this w)).
  cbn in Hg.
  destruct (list_find (same_name name) (_virtualDirectories (this w))) eqn:Hf;
    [discriminate |].
  now apply remove_unknown.
Qed.

(** X11. With hashes to remove and a record under the name, [remove] throws
    a [TypeError] on every state; the instance and the disk are those
    of before the call. *)
Theorem remove_with_hashes_throws (name : string) (hashes : list Z) (w : world) :
  hashes <> [] ->
  passes_guard (Remove (VString name) hashes) w = true ->
  remove (VString name) hashes w = (Throw TypeError, w).
Proof.
  intros Hne Hg. cbn in Hg.
  destruct (list_find (same_name name) (_virtualDirectories (this w)))
    as [[i r]|] eqn:Hf; [| discriminate].
  destruct hashes as [|h hashes]; [congruence |].
  exact (remove_listed _ _ _ _ _ _ Hf).
Qed.

(** X12. Removing the only record.  With the sidecar file on disk the call
    completes: both lists are empty and the file is deleted.  Without
    the file [unlinkSync] throws [ENOENT] after the record was spliced
    out and before [_refresh]: the record list is empty and the derived
    view still is the one of before. *)
Theorem remove_last_record (name : string) (r : VirtualDirectoryRecord) (w : world) :
  _virtualDirectories (this w) = [r] ->
  same_name name r ->
  remove (VString name) [] w
  = match disk w !! _file (this w) with
    | Some _ =>
        (Normal tt,
         mkWorld (mkManager (_directory (this w)) (_file (this w)) (_root (this w)) [] [])
                 (delete (_file (this w)) (disk w)))
    | None =>
        (Throw ENOENT,
         mkWorld (mkManager (_directory (this w)) (_file (this w)) (_root (this w)) []
                    (_realDirectories (this w)))
                 (disk w))
    end.
Proof.
  intros Hl Hr.
  assert (list_find (same_name name) (_virtualDirectories (this w)) = Some (0%nat, r)) as Hf.
  { rewrite Hl. cbn. now rewrite decide_True by exact Hr. }
  rewrite (remove_whole _ _ _ _ Hf), Hl. cbn [delete list_delete].
  rewrite write_empty by reflexivity.
  destruct w as [[dir file root recs real] d]. cbn.
  now destruct (d !! file).
Qed.

(** *** The constructor and the sidecar file *)

Lemma read_unreadable (w : world) (txt : string) :
  disk w !! _file (this w) = Some txt ->
  Json.parse txt = None ->
  _read w = (Throw SidecarOutsideModel, w).
Proof.
  intros Hd Hp. unfold ZettlrVirtualDirectory._read.
  unfold try_catch, lstatSync, readFileSync, JSON_parse.
  destruct w as [[dir file root recs real] d]. cbn in Hd.
  unfold_monad. cbn. rewrite Hd. cbn. now rewrite Hd, Hp.
Qed.

(** The three ways [_read] can go, by what lies at the path of the
    sidecar file. *)
Lemma read_cases (w : world) :
  _read w
  = match disk w !! _file (this w) with
    | None => (Normal false, w)
    | Some txt =>
        match Json.parse txt with
        | None => (Throw SidecarOutsideModel, w)
        | Some l =>
            (if forallb fileless l then Normal true else Throw ReferenceError,
             mkWorld (mkManager (_directory (this w)) (_file (this w)) (_root (this w)) l
                        (empty_view <$> leading_fileless l))
                     (disk w))
        end
    end.
Proof.
  destruct (disk w !! _file (this w)) as [txt|] eqn:Hd.
  - destruct (Json.parse txt) as [l|] eqn:Hp.
    + now apply read_present with txt.
    + now apply read_unreadable with txt.
  - now apply read_absent.
Qed.

Lemma constructor_cases (dir : Directory) (d : gmap string string) :
  let file := path_join (getPath dir) ".ztr-virtual-dir" in
  constructor dir d
  = match d !! file with
    | None => (Normal tt, mkWorld (mkManager dir file None [] []) d)
    | Some txt =>
        match Json.parse txt with
        | None => (Throw SidecarOutsideModel, mkWorld (mkManager dir file None [] []) d)
        | Some l =>
            (if forallb fileless l then Normal tt else Throw ReferenceError,
             mkWorld (mkManager dir file None l (empty_view <$> leading_fileless l)) d)
        end
    end.
Proof.
  intros file. unfold ZettlrVirtualDirectory.constructor. fold file.
  unfold bind. rewrite read_cases. cbn [this disk _file _directory _root].
  destruct (d !! file) as [txt|]; [| reflexivity].
  destruct (Json.parse txt) as [l|]; [| reflexivity].
  now destruct (forallb fileless l).
Qed.

(** X13. The constructor only reads: whatever the sidecar file holds, and
    whether the constructor returns or throws, the disk afterwards is
    the disk it was given. *)
Theorem constructor_never_writes (dir : Directory) (d : gmap string string) :
  disk (snd (constructor dir d)) = d.
Proof.
  rewrite constructor_cases. cbn zeta.
  destruct (d !! _) as [txt|]; [| reflexivity].
  now destruct (Json.parse txt).
Qed.

(** X14. Over a sidecar file that holds the JSON text of a record list, the
    constructor loads that list.  It returns when no record holds a
    file, and the derived view then has one childless entry per record;
    otherwise it throws a [ReferenceError]. *)
Theorem constructor_loads (dir : Directory) (d : gmap string string)
    (l : list VirtualDirectoryRecord) :
  d !! path_join (getPath dir) ".ztr-virtual-dir" = Some (Json.stringify l) ->
  _virtualDirectories (this (snd (constructor dir d))) = l
  /\ fst (constructor dir d)
     = (if forallb fileless l then Normal tt else Throw ReferenceError)
  /\ (forallb fileless l = true ->
      _realDirectories (this (snd (constructor dir d))) = empty_view <$> l).
Proof.
  intros Hd. rewrite constructor_cases. cbn zeta.
  rewrite Hd, JsonFacts.parse_stringify. cbn.
  split; [reflexivity |]. split; [reflexivity |].
  intros Hall. now rewrite (leading_fileless_all _ Hall).
Qed.

(** X15. What [_write] wrote for a list that is not empty, a fresh instance
    over the same directory reads back: it holds the same record list
    and the same derived view as the writer, and its constructor
    returns or throws as [_write] did. *)
Theorem write_then_construct (w : world) :
  _file (this w) = path_join (getPath (_directory (this w))) ".ztr-virtual-dir" ->
  _virtualDirectories (this w) <> [] ->
  let written := _write w in
  let fresh := constructor (_directory (this w)) (disk (snd written)) in
  fst fresh = fst written
  /\ _virtualDirectories (this (snd fresh)) = _virtualDirectories (this w)
  /\ _realDirectories (this (snd fresh)) = _realDirectories (this (snd written)).
Proof.
  intros Hfile Hne written fresh. unfold fresh, written.
  rewrite write_nonempty by exact Hne. cbn [snd fst disk].
  rewrite constructor_cases. cbn zeta. rewrite <- Hfile.
  rewrite lookup_insert_eq, JsonFacts.parse_stringify. cbn. auto.
Qed.

(** *** Every state of an instance *)

(** What a call can do to the world: nothing; write the sidecar file
    for the list it leaves and rebuild the view; delete the file for
    the empty list; or fail to delete a file that is not there. *)
Lemma run_shape (c : call) (w : world) :
  let self := this w in
  (snd (run c w) = w
   /\ (fst (run c w) = Normal tt \/ fst (run c w) = Throw TypeError))
  \/ (exists l : list VirtualDirectoryRecord,
        l <> []
        /\ snd (run c w)
           = mkWorld (mkManager (_directory self) (_file self) (_root self) l
                        (empty_view <$> leading_fileless l))
                     (<[_file self := Json.stringify l]> (disk w))
        /\ fst (run c w)
           = (if forallb fileless l then Normal tt else Throw ReferenceError))
  \/ (snd (run c w)
      = mkWorld (mkManager (_directory self) (_file self) (_root self) [] [])
                (delete (_file self) (disk w))
      /\ fst (run c w) = Normal tt)
  \/ (snd (run c w)
      = mkWorld (mkManager (_directory self) (_file self) (_root self) []
                   (_realDirectories self))
                (disk w)
      /\ fst (run c w) = Throw ENOENT
      /\ _virtualDirectories self <> []
      /\ disk w !! _file self = None).
Proof.
  intros self. unfold self.
  destruct c as [name files | name hashes]; cbn [ZettlrVirtualDirectory.run].
  - destruct name as [| | b | n | name]; try (left; cbn; auto; fail).
    right; left. unfold bind. rewrite add_string.
    exists (merged name (stored (this w) files) (_virtualDirectories (this w))).
    split; [apply merged_nonempty |].
    destruct (forallb fileless _); cbn; auto.
  - destruct name as [| | b | n | name].
    1-4: left; rewrite remove_non_string by (cbn; congruence);
         destruct (_virtualDirectories (this w)); cbn; auto.
    destruct (list_find (same_name name) (_virtualDirectories (this w)))
      as [[i r]|] eqn:Hf.
    + destruct hashes as [|h hashes].
      * rewrite (remove_whole _ _ _ _ Hf).
        assert (_virtualDirectories (this w) <> []) as Hne.
        { apply list_find_Some in Hf as (Hi & _). intros He. now rewrite He in Hi. }
        destruct w as [[dir file root recs real] d].
        cbn [this disk with_virtualDirectories _virtualDirectories _directory _file
               _root _realDirectories] in *.
        destruct (delete i recs) as [|r1 l1] eqn:Hdel.
        -- rewrite write_empty by reflexivity. cbn.
           destruct (d !! file) eqn:Hd; [right; right; left | right; right; right]; auto.
        -- right; left. rewrite write_nonempty by (cbn; congruence).
           exists (r1 :: l1). split; [congruence |]. cbn. auto.
      * left. rewrite (remove_listed _ _ _ _ _ _ Hf). cbn. auto.
    + left. rewrite remove_unknown by exact Hf. cbn. auto.
Qed.

Lemma view_entries (l : list VirtualDirectoryRecord) :
  Forall (fun e : RealDirectory =>
            r_children e = [] /\ r_hash e = hash (r_name e) /\ r_type e = "virtualdir")
    (empty_view <$> l).
Proof. apply Forall_fmap, Forall_forall. intros r _. cbn. auto. Qed.


Local Abbreviation instance_invariant := (instance_invariant path_join hash).

Lemma constructed_invariant (dir : Directory) (d : gmap string string) (w : world) :
  constructor dir d = (Normal tt, w) -> instance_invariant dir w.
Proof.
  rewrite constructor_cases. cbn zeta. intros Hnew.
  destruct (d !! _) as [txt|] eqn:Hd.
  - destruct (Json.parse txt) as [l|] eqn:Hp; [| discriminate].
    destruct (forallb fileless l); [| discriminate].
    injection Hnew as <-. unfold ZettlrVirtualDirectory.instance_invariant. cbn.
    split; [auto |]. split; [| apply view_entries]. eauto.
  - injection Hnew as <-. unfold ZettlrVirtualDirectory.instance_invariant. cbn.
    split; [auto |]. split; [congruence | constructor].
Qed.

Lemma run_invariant (dir : Directory) (c : call) (w : world) :
  instance_invariant dir w -> instance_invariant dir (snd (run c w)).
Proof.
  intros ((Hdir & Hfile & Hroot) & Hside & Hview).
  destruct (run_shape c w) as [(Hw & _) | [(l & Hne & Hw & _) | [(Hw & _) | (Hw & _)]]];
    rewrite Hw; unfold ZettlrVirtualDirectory.instance_invariant; cbn.
  - auto.
  - split; [auto |]. split; [| apply view_entries].
    intros _. eexists. split; [apply lookup_insert_eq | apply JsonFacts.parse_stringify].
  - split; [auto |]. split; [congruence | constructor].
  - split; [auto |]. split; [congruence | exact Hview].
Qed.

Lemma reachable_invariant (dir : Directory) (w : world) :
  reachable dir w -> instance_invariant dir w.
Proof.
  induction 1 as [d w Hnew | c w Hw IH].
  - now apply constructed_invariant with d.
  - now apply run_invariant.
Qed.

Lemma find_loop_elem (h : Z) (l : list RealDirectory) (e : RealDirectory) :
  find_loop h l = Some e -> e ∈ l.
Proof.
  induction l as [|x l IH]; [discriminate |]. cbn.
  destruct (r_hash x =? h).
  - intros [= ->]. left.
  - intros Hfind. right. now apply IH.
Qed.

(** X16. No method moves an instance: in every state it has, the directory
    is the one it was built over, the sidecar path is
    [.ztr-virtual-dir] joined to the path of that directory, and
    [_root] is undefined. *)
Theorem reachable_fields (dir : Directory) (w : world) :
  reachable dir w ->
  _directory (this w) = dir
  /\ _file (this w) = path_join (getPath dir) ".ztr-virtual-dir"
  /\ _root (this w) = None.
Proof. intros Hw. apply (reachable_invariant dir w Hw). Qed.


(** X18. In every state of an instance, each entry of the derived view has
    no child, the hash of its own name, and the type [virtualdir]; so
    [find] never returns an entry that has a child. *)
Theorem reachable_view (dir : Directory) (w : world) (obj : FindArgument)
    (e : RealDirectory) :
  reachable dir w ->
  find (this w) obj = Some e ->
  e ∈ _realDirectories (this w)
  /\ r_children e = [] /\ r_hash e = hash (r_name e) /\ r_type e = "virtualdir".
Proof.
  intros Hw Hfind.
  destruct (reachable_invariant dir w Hw) as (_ & _ & Hview).
  assert (e ∈ _realDirectories (this w)) as Hin.
  { unfold find in Hfind. destruct (hash_property obj) as [h|]; [| discriminate].
    now apply find_loop_elem with h. }
  split; [exact Hin |]. rewrite Forall_forall in Hview. now apply Hview.
Qed.


(** *** Relative and absolute paths *)

Lemma starts_with_append (r q : string) : JsString.starts_with r (r +:+ q) = true.
Proof.
  induction r as [|c r IH]; [reflexivity |].
  rewrite JsonFacts.append_cons. cbn. now rewrite N.eqb_refl, IH.
Qed.

Lemma substr_from_append (r q : string) :
  JsString.substr_from (String.length r) (r +:+ q) = q.
Proof.
  induction r as [|c r IH]; [reflexivity |].
  rewrite JsonFacts.append_cons. cbn. exact IH.
Qed.

Lemma replace_at_start (s pat rep : string) :
  JsString.starts_with pat s = true ->
  JsString.replace s pat rep = rep +:+ JsString.substr_from (String.length pat) s.
Proof. intros H. destruct s; cbn; now rewrite H. Qed.

(** X20. On an instance whose [_root] holds a path, [_makeRelative] takes
    that path off the front of a path that begins with it, once, and
    returns every other path as it is; [_isAbsolute] is the test
    whether the path begins with the root. *)
Theorem make_relative_strips_root (self : t) (root : string) :
  _root self = Some root ->
  (forall q : string, _makeRelative self (root +:+ q) = q)
  /\ (forall p : string,
        JsString.starts_with root p = false -> _makeRelative self p = p)
  /\ (forall p : string, _isAbsolute self p = JsString.starts_with root p).
Proof.
  intros Hr.
  assert (forall p, _isAbsolute self p = JsString.starts_with root p) as Habs.
  { intros p. unfold _isAbsolute, root_ToString. rewrite Hr. apply indexOf_zero. }
  split; [| split; [| exact Habs]].
  - intros q. unfold _makeRelative. rewrite Habs, starts_with_append.
    unfold root_ToString. rewrite Hr.
    rewrite replace_at_start by apply starts_with_append.
    rewrite JsonFacts.append_nil_l. apply substr_from_append.
  - intros p Hp. unfold _makeRelative. now rewrite Habs, Hp.
Qed.

(** X21. On an instance the class built, the two conversions are inert for
    every path that does not begin with the text [undefined]:
    [_makeRelative] returns the path as it is, and [_makeAbsolute]
    throws the [TypeError] of [path.join] on an undefined root. *)
Theorem reachable_paths (dir : Directory) (w : world) (p : string) :
  reachable dir w ->
  JsString.starts_with "undefined" p = false ->
  _makeRelative (this w) p = p
  /\ _makeAbsolute path_join (this w) p = Throw TypeError.
Proof.
  intros Hw Hp. destruct (reachable_invariant dir w Hw) as ((_ & _ & Hroot) & _).
  split; [now apply make_relative_without_root |].
  unfold _makeAbsolute, _isAbsolute, root_ToString.
  now rewrite Hroot, indexOf_zero, Hp.
Qed.

End ManagerFacts.

(** ** The class on the directory [/notes] *)

Local Abbreviation add := (add Sample.path_join Sample.hash).
Local Abbreviation remove := (remove Sample.path_join Sample.hash).
Local Abbreviation constructor := (constructor Sample.path_join Sample.hash).
Local Abbreviation run := (run Sample.path_join Sample.hash).

(** C1, on the code: [remove] with a list of hashes.  The record found
    under the name is the plain object [{name, files}], on which the
    loop calls [find]; the call throws a [TypeError] at the first hash.
    No reference is removed and nothing is written: the record still
    holds its file and the disk is the one of before. *)
Theorem remove_listed_refs_throws :
  let w := snd Sample.after_add in
  _virtualDirectories (this w) = [mkRecord "X" ["/notes/a.md"]]
  /\ remove (VString "x") [Sample.hash "/notes/a.md"] w = (Throw TypeError, w).
Proof.
  split; [reflexivity |].
  apply (remove_listed Sample.path_join Sample.hash "x" _ [] _ 0%nat
           (mkRecord "X" ["/notes/a.md"])).
  reflexivity.
Qed.

(** C2, on the code: [add("X", [f])] with [f] in scope and known to
    the directory.  [_refresh] reads the block-level [file] inside its
    own initialiser and throws a [ReferenceError] before it pushes the
    entry of ["X"]; [find] with the hash of ["X"] then returns [null]. *)
Theorem add_then_find_misses :
  isScope Sample.notes "/notes/a.md" = true
  /\ findFile Sample.notes "/notes/a.md" = Some "/notes/a.md"
  /\ fst Sample.after_add = Throw ReferenceError
  /\ find (this (snd Sample.after_add)) (Sample.by_hash (Sample.hash "X")) = None.
Proof. repeat split; vm_compute; reflexivity. Qed.

(** C3, on the code: the reference ["/notes/a.md"] begins with the
    path of the directory, ["/notes"], and is in scope.  [_root] is
    undefined on every instance, so [_makeRelative] strips nothing:
    the record and the sidecar file hold the reference in full. *)
Theorem add_stores_reference_unstripped :
  JsString.starts_with (getPath Sample.notes) "/notes/a.md" = true
  /\ isScope Sample.notes "/notes/a.md" = true
  /\ _root (this Sample.fresh) = None
  /\ _virtualDirectories (this (snd Sample.after_add)) = [mkRecord "X" ["/notes/a.md"]]
  /\ disk (snd Sample.after_add) !! Sample.sidecar
     = Some (Json.stringify [mkRecord "X" ["/notes/a.md"]]).
Proof. repeat split; vm_compute; reflexivity. Qed.

(** C5, on the code: the sidecar file that [add("X", ["/notes/a.md"])]
    wrote holds a record with a file.  The constructor of a fresh
    instance over it throws a [ReferenceError] from [_refresh]; no
    instance, and so no derived view, comes out of it. *)
Theorem fresh_instance_over_written_sidecar_throws :
  disk (snd Sample.after_add) !! Sample.sidecar
  = Some (Json.stringify [mkRecord "X" ["/notes/a.md"]])
  /\ Json.parse (Json.stringify [mkRecord "X" ["/notes/a.md"]])
     = Some [mkRecord "X" ["/notes/a.md"]]
  /\ fst (constructor Sample.notes (disk (snd Sample.after_add))) = Throw ReferenceError.
Proof. repeat split; vm_compute; reflexivity. Qed.

(** *** The general statements at an input *)

Lemma add_rejects_non_string_witness :
  typeof (VNumber 42) <> "string"
  /\ add (VNumber 42) ["/notes/a.md"] Sample.fresh = (Normal false, Sample.fresh).
Proof.
  split; [discriminate |].
  apply (add_rejects_non_string Sample.path_join Sample.hash). discriminate.
Defined.

Lemma constructor_without_sidecar_witness :
  (∅ : gmap string string) !! Sample.sidecar = None
  /\ constructor Sample.notes ∅
     = (Normal tt, mkWorld (Sample.manager [] []) ∅).
Proof.
  split; [reflexivity |].
  apply (constructor_without_sidecar Sample.path_join Sample.hash Sample.notes ∅).
  reflexivity.
Defined.

(** Two entries with the hash 7 behind one with the hash 3: [find]
    returns the first of the two, and [null] for an argument that only
    carries a name. *)
Lemma find_matches_hash_only_witness :
  let first := mkReal "B" ["/notes/b.md"] 7 "virtualdir" in
  let view := [mkReal "A" [] 3 "virtualdir"; first; mkReal "C" [] 7 "virtualdir"] in
  let self := Sample.manager [] view in
  find self (mkFindArgument None None (Some "B")) = None
  /\ find self (Sample.by_hash 7) = Some first.
Proof.
  intros first view self. split.
  - apply (proj1 (find_matches_hash_only self (mkFindArgument None None (Some "B")))).
    reflexivity.
  - apply (proj1 (proj2 (find_matches_hash_only self (Sample.by_hash 7)))
             7 [mkReal "A" [] 3 "virtualdir"] [mkReal "C" [] 7 "virtualdir"] first);
      try reflexivity.
    repeat constructor. cbn. lia.
Defined.

(** [add("Notes")] writes the sidecar file; [remove("notes")] then
    empties the list and deletes the file. *)
Lemma sidecar_agrees_after_mutation_witness :
  let w1 := snd (run (Add (VString "Notes") []) Sample.fresh) in
  let w2 := snd (run (Remove (VString "notes") []) w1) in
  (run (Add (VString "Notes") []) Sample.fresh = (Normal tt, w1)
   /\ sidecar_consistent w1)
  /\ (run (Remove (VString "notes") []) w1 = (Normal tt, w2)
      /\ sidecar_consistent w2).
Proof.
  intros w1 w2.
  assert (run (Add (VString "Notes") []) Sample.fresh = (Normal tt, w1)) as H1
    by (vm_compute; reflexivity).
  assert (run (Remove (VString "notes") []) w1 = (Normal tt, w2)) as H2
    by (vm_compute; reflexivity).
  split; (split; [assumption |]).
  - exact (sidecar_agrees_after_mutation Sample.path_join Sample.hash _ _ _ H1).
  - exact (sidecar_agrees_after_mutation Sample.path_join Sample.hash _ _ _ H2).
Defined.

(** ["Notes"] then ["notes"]: one record, named by the first call,
    with the files of both. *)
Lemma names_stay_unique_witness :
  JsString.toLowerCase "Notes" = JsString.toLowerCase "notes"
  /\ list_find (same_name "Notes") (_virtualDirectories (this Sample.fresh)) = None
  /\ _virtualDirectories
      (this (snd (add (VString "notes") ["/notes/b.md"]
                    (snd (add (VString "Notes") ["/notes/a.md"] Sample.fresh)))))
    = [mkRecord "Notes" ["/notes/a.md"; "/notes/b.md"]].
Proof.
  split; [reflexivity |]. split; [reflexivity |].
  exact (proj2 (proj2 (proj2 (proj2
                  (names_stay_unique Sample.path_join Sample.hash Sample.fresh)))
                  "Notes" "notes" ["/notes/a.md"] ["/notes/b.md"] eq_refl)
           eq_refl).
Defined.

(** The same reference added twice under ["X"] and ["x"]. *)
Lemma add_keeps_duplicates_witness :
  let w := snd Sample.after_add in
  list_find (same_name "x") (_virtualDirectories (this w))
  = Some (0%nat, mkRecord "X" ["/notes/a.md"])
  /\ isScope (_directory (this w)) "/notes/a.md" = true
  /\ _virtualDirectories (this (snd (add (VString "x") ["/notes/a.md"] w)))
    = [mkRecord "X" ["/notes/a.md"; "/notes/a.md"]]
  /\ disk (snd (add (VString "x") ["/notes/a.md"] w)) !! Sample.sidecar
    = Some (Json.stringify [mkRecord "X" ["/notes/a.md"; "/notes/a.md"]]).
Proof.
  intros w.
  assert (list_find (same_name "x") (_virtualDirectories (this w))
          = Some (0%nat, mkRecord "X" ["/notes/a.md"])) as Hf by reflexivity.
  assert (isScope (_directory (this w)) "/notes/a.md" = true) as Hs by reflexivity.
  assert (_makeRelative (this w) "/notes/a.md" ∈ v_files (mkRecord "X" ["/notes/a.md"]))
    as Hin by (vm_compute; left).
  pose proof (add_keeps_duplicates Sample.path_join Sample.hash
                "x" "/notes/a.md" w 0%nat _ Hf Hs Hin) as (Hrecs & _ & Hdisk & _).
  split; [exact Hf |]. split; [exact Hs |]. split.
  - exact Hrecs.
  - refine (eq_trans Hdisk _). rewrite Hrecs. reflexivity.
Defined.

(** *** The further properties at an input *)

Local Abbreviation reachable := (reachable Sample.path_join Sample.hash).

Lemma fresh_reachable : reachable Sample.notes Sample.fresh.
Proof. apply (reachable_new _ _ _ ∅). vm_compute. reflexivity. Qed.

Lemma noted_reachable : reachable Sample.notes Sample.noted.
Proof.
  exact (reachable_call _ _ _ (Add (VString "Notes") []) _ fresh_reachable).
Qed.

Lemma after_add_reachable : reachable Sample.notes (snd Sample.after_add).
Proof.
  exact (reachable_call _ _ _ (Add (VString "X") ["/notes/a.md"]) _ fresh_reachable).
Qed.

(** [add("Notes", [f])] with [f] out of scope completes; the view has
    the one entry of ["Notes"]. *)
Lemma completed_call_view_witness :
  let c := Add (VString "Notes") ["/elsewhere/x.md"] in
  run c Sample.fresh = (Normal tt, Sample.noted)
  /\ passes_guard c Sample.fresh = true
  /\ _realDirectories (this Sample.noted)
     = [mkReal "Notes" [] (Sample.hash "Notes") "virtualdir"].
Proof.
  intros c.
  assert (run c Sample.fresh = (Normal tt, Sample.noted)) as Hrun
    by (vm_compute; reflexivity).
  split; [exact Hrun |]. split; [reflexivity |].
  exact (proj2 (completed_call_view Sample.path_join Sample.hash c _ _ Hrun eq_refl)).
Defined.

Lemma find_after_completed_call_witness :
  let c := Add (VString "Notes") [] in
  run c Sample.fresh = (Normal tt, Sample.noted)
  /\ passes_guard c Sample.fresh = true
  /\ find (this Sample.noted) (Sample.by_hash (Sample.hash "Notes"))
     = Some (mkReal "Notes" [] (Sample.hash "Notes") "virtualdir")
  /\ find (this Sample.noted) (Sample.by_hash (Sample.hash "notes")) = None.
Proof.
  intros c.
  assert (run c Sample.fresh = (Normal tt, Sample.noted)) as Hrun
    by (vm_compute; reflexivity).
  split; [exact Hrun |]. split; [reflexivity |]. split.
  - exact (find_after_completed_call Sample.path_join Sample.hash c _ _
             (Sample.by_hash (Sample.hash "Notes")) Hrun eq_refl).
  - exact (find_after_completed_call Sample.path_join Sample.hash c _ _
             (Sample.by_hash (Sample.hash "notes")) Hrun eq_refl).
Defined.

Lemma add_only_appends_witness :
  let w := snd Sample.after_add in
  _virtualDirectories (this w) !! 0%nat = Some (mkRecord "X" ["/notes/a.md"])
  /\ exists extra : list string,
       _virtualDirectories (this (snd (add (VString "x") ["/notes/b.md"] w))) !! 0%nat
       = Some (mkRecord "X" (["/notes/a.md"] ++ extra)).
Proof.
  intros w.
  assert (_virtualDirectories (this w) !! 0%nat = Some (mkRecord "X" ["/notes/a.md"]))
    as Hj by reflexivity.
  split; [exact Hj |].
  exact (proj2 (add_only_appends Sample.path_join Sample.hash "x" ["/notes/b.md"] w)
           0%nat _ Hj).
Defined.

Lemma add_again_without_files_witness :
  JsString.toLowerCase "Notes" = JsString.toLowerCase "NOTES"
  /\ add (VString "NOTES") [] Sample.noted = add (VString "Notes") [] Sample.fresh.
Proof.
  split; [reflexivity |].
  exact (add_again_without_files Sample.path_join Sample.hash
           "Notes" "NOTES" [] Sample.fresh eq_refl).
Defined.

Lemma add_then_remove_witness :
  JsString.toLowerCase "Drafts" = JsString.toLowerCase "drafts"
  /\ list_find (same_name "Drafts") (_virtualDirectories (this Sample.noted)) = None
  /\ _virtualDirectories
       (this (snd (remove (VString "drafts") []
                     (snd (add (VString "Drafts") ["/notes/a.md"] Sample.noted)))))
     = [mkRecord "Notes" []].
Proof.
  split; [reflexivity |]. split; [reflexivity |].
  exact (add_then_remove Sample.path_join Sample.hash
           "Drafts" "drafts" ["/notes/a.md"] Sample.noted eq_refl eq_refl).
Defined.

Lemma remove_first_match_witness :
  list_find (same_name "notes") (_virtualDirectories (this Sample.noted))
  = Some (0%nat, mkRecord "Notes" [])
  /\ names_unique (_virtualDirectories (this Sample.noted))
  /\ _virtualDirectories (this (snd (remove (VString "notes") [] Sample.noted))) = []
  /\ remove (VString "notes") [7] (snd (remove (VString "notes") [] Sample.noted))
     = (Normal tt, snd (remove (VString "notes") [] Sample.noted)).
Proof.
  assert (list_find (same_name "notes") (_virtualDirectories (this Sample.noted))
          = Some (0%nat, mkRecord "Notes" [])) as Hf by reflexivity.
  assert (names_unique (_virtualDirectories (this Sample.noted))) as Hu.
  { unfold names_unique. vm_compute. repeat constructor. now intros ?%elem_of_nil. }
  pose proof (remove_first_match Sample.path_join Sample.hash "notes" Sample.noted
                0%nat _ Hf) as (Hl & Hrest).
  destruct (Hrest Hu) as (_ & Hagain).
  split; [exact Hf |]. split; [exact Hu |]. split; [exact Hl | exact (Hagain [7])].
Defined.

Lemma remove_stopped_by_guard_witness :
  passes_guard (Remove (VNumber 42) []) Sample.noted = false
  /\ remove (VNumber 42) [] Sample.noted = (Throw TypeError, Sample.noted).
Proof.
  split; [reflexivity |].
  exact (remove_stopped_by_guard Sample.path_join Sample.hash
           (VNumber 42) [] Sample.noted eq_refl).
Defined.

Lemma remove_with_hashes_throws_witness :
  [Sample.hash "/notes/a.md"] <> []
  /\ passes_guard (Remove (VString "notes") [Sample.hash "/notes/a.md"]) Sample.noted = true
  /\ remove (VString "notes") [Sample.hash "/notes/a.md"] Sample.noted
     = (Throw TypeError, Sample.noted).
Proof.
  assert ([Sample.hash "/notes/a.md"] <> []) as Hne by discriminate.
  split; [exact Hne |]. split; [reflexivity |].
  exact (remove_with_hashes_throws Sample.path_join Sample.hash
           "notes" _ Sample.noted Hne eq_refl).
Defined.

Lemma remove_last_record_witness :
  _virtualDirectories (this Sample.noted) = [mkRecord "Notes" []]
  /\ same_name "notes" (mkRecord "Notes" [])
  /\ remove (VString "notes") [] Sample.noted
     = (Normal tt, mkWorld (Sample.manager [] []) (delete Sample.sidecar (disk Sample.noted))).
Proof.
  split; [reflexivity |]. split; [reflexivity |].
  exact (remove_last_record Sample.path_join Sample.hash
           "notes" (mkRecord "Notes" []) Sample.noted eq_refl eq_refl).
Defined.

(** A fresh instance over the disk that [add("Notes")] left. *)
Lemma constructor_loads_witness :
  disk Sample.noted !! Sample.sidecar = Some (Json.stringify [mkRecord "Notes" []])
  /\ _virtualDirectories (this (snd (constructor Sample.notes (disk Sample.noted))))
     = [mkRecord "Notes" []]
  /\ fst (constructor Sample.notes (disk Sample.noted)) = Normal tt.
Proof.
  assert (disk Sample.noted !! Sample.sidecar
          = Some (Json.stringify [mkRecord "Notes" []])) as Hd by (vm_compute; reflexivity).
  pose proof (constructor_loads Sample.path_join Sample.hash Sample.notes
                (disk Sample.noted) [mkRecord "Notes" []] Hd) as (Hl & Hc & _).
  split; [exact Hd |]. split; [exact Hl | exact Hc].
Defined.

(** The writer holds a record with a file: [_write] throws, and so
    does the constructor of the reader, over the same record list. *)
Lemma write_then_construct_witness :
  let w := snd Sample.after_add in
  _file (this w) = Sample.path_join (getPath (_directory (this w))) ".ztr-virtual-dir"
  /\ _virtualDirectories (this w) <> []
  /\ fst (constructor Sample.notes (disk (snd (_write Sample.path_join Sample.hash w))))
     = Throw ReferenceError
  /\ _virtualDirectories
       (this (snd (constructor Sample.notes
                     (disk (snd (_write Sample.path_join Sample.hash w))))))
     = [mkRecord "X" ["/notes/a.md"]].
Proof.
  intros w.
  assert (_file (this w)
          = Sample.path_join (getPath (_directory (this w))) ".ztr-virtual-dir")
    as Hfile by reflexivity.
  assert (_virtualDirectories (this w) <> []) as Hne by discriminate.
  pose proof (write_then_construct Sample.path_join Sample.hash w Hfile Hne)
    as (Hc & Hl & _).
  split; [exact Hfile |]. split; [exact Hne |]. split; [exact Hc | exact Hl].
Defined.

Lemma reachable_fields_witness :
  reachable Sample.notes (snd Sample.after_add)
  /\ _directory (this (snd Sample.after_add)) = Sample.notes
  /\ _file (this (snd Sample.after_add)) = Sample.sidecar
  /\ _root (this (snd Sample.after_add)) = None.
Proof.
  split; [exact after_add_reachable |].
  exact (reachable_fields Sample.path_join Sample.hash Sample.notes _ after_add_reachable).
Defined.


Lemma reachable_view_witness :
  let e := mkReal "Notes" [] (Sample.hash "Notes") "virtualdir" in
  reachable Sample.notes Sample.noted
  /\ find (this Sample.noted) (Sample.by_hash (Sample.hash "Notes")) = Some e
  /\ r_children e = [].
Proof.
  intros e.
  assert (find (this Sample.noted) (Sample.by_hash (Sample.hash "Notes")) = Some e)
    as Hfind by (vm_compute; reflexivity).
  split; [exact noted_reachable |]. split; [exact Hfind |].
  exact (proj1 (proj2 (reachable_view Sample.path_join Sample.hash Sample.notes _ _ _
                         noted_reachable Hfind))).
Defined.


Lemma make_relative_strips_root_witness :
  _root Sample.rooted = Some "/notes"
  /\ _makeRelative Sample.rooted "/notes/a.md" = "/a.md"
  /\ _makeRelative Sample.rooted "b.md" = "b.md"
  /\ _isAbsolute Sample.rooted "/notes/a.md" = true.
Proof.
  pose proof (make_relative_strips_root Sample.rooted "/notes" eq_refl)
    as (Hstrip & Hkeep & Habs).
  split; [reflexivity |]. split; [exact (Hstrip "/a.md") |].
  split; [exact (Hkeep "b.md" eq_refl) | exact (Habs "/notes/a.md")].
Defined.

Lemma reachable_paths_witness :
  reachable Sample.notes Sample.noted
  /\ JsString.starts_with "undefined" "/notes/a.md" = false
  /\ _makeRelative (this Sample.noted) "/notes/a.md" = "/notes/a.md"
  /\ _makeAbsolute Sample.path_join (this Sample.noted) "/notes/a.md" = Throw TypeError.
Proof.
  split; [exact noted_reachable |]. split; [reflexivity |].
  exact (reachable_paths Sample.path_join Sample.hash Sample.notes Sample.noted
           "/notes/a.md" noted_reachable eq_refl).
Defined.
